(** * Replica-placement control loop: replicate queue, simulated stores, node event feed

    A shallow embedding of
      - storage/replicate_queue.go   (module [storage]),
      - storage/simulation/store.go  (module [simulation]),
      - server/status/feed.go        (module [status]),
    together with the parts of the [proto], [config], [gossip] and [hlc]
    packages these files use.

    Calls to collaborators (allocator, store pool, consensus layer, queue
    engine, gossip, event feed) are recorded, in program order, in a trace of
    events; every event carries the arguments of the call and what the call
    returned. *)

From Stdlib Require Import ZArith List Floats Lia.
From stdpp Require Import base option list strings pretty gmap.

Open Scope Z_scope.

(** ** Go values and control flow *)

Module Go.

(** Two's-complement conversion to a signed [w]-bit integer. *)
Definition wrap (w : Z) (x : Z) : Z := (x + 2 ^ (w - 1)) mod 2 ^ w - 2 ^ (w - 1).

(** The conversions [int64(x)] and [int32(x)]; Go's [int] is taken to be
    64 bits wide. *)
Definition int64 (x : Z) : Z := wrap 64 x.
Definition int32 (x : Z) : Z := wrap 32 x.

(** [len(l)] as a Go [int]. *)
Definition len {A} (l : list A) : Z := Z.of_nat (length l).

(** The [error] interface: an error is its message; [nil] is [None]. *)
Definition error : Type := string.

(** A pair [(value, error)] as returned by a fallible call. *)
Inductive result (A : Type) : Type :=
| Ok (a : A)
| Err (e : error).
Arguments Ok {A} a.
Arguments Err {A} e.

(** How the execution of a statement ends: it falls through to the next
    statement with a value, the enclosing function returns, or the
    goroutine panics. *)
Inductive Outcome (R A : Type) : Type :=
| Next (a : A)
| Return (r : R)
| Panic (msg : string).
Arguments Next {R A} a.
Arguments Return {R A} r.
Arguments Panic {R A} msg.

(** A statement of a function with result type [R], observed through the
    events [E] it emits. *)
Definition M (E R A : Type) : Type := (list E * Outcome R A)%type.

Definition ret {E R A} (a : A) : M E R A := ([], Next a).

Definition bind {E R A B} (f : A → M E R B) (m : M E R A) : M E R B :=
  match m with
  | (t, Next a) => let '(t', o) := f a in (t ++ t', o)
  | (t, Return r) => (t, Return r)
  | (t, Panic msg) => (t, Panic msg)
  end.

Global Instance M_ret {E R} : MRet (M E R) := λ A, ret.
Global Instance M_bind {E R} : MBind (M E R) := λ A B, bind.

(** [return r] *)
Definition return_ {E R A} (r : R) : M E R A := ([], Return r).

(** A run-time panic. *)
Definition panic {E R A} (msg : string) : M E R A := ([], Panic msg).

(** One observable event. *)
Definition emit {E R} (e : E) : M E R unit := ([e], Next tt).

(** A call whose result [res] is recorded by the event [ev res]. *)
Definition call {E R A} (ev : A → E) (res : A) : M E R A := ([ev res], Next res).

(** [x, err := f(...); if err != nil { return err }] *)
Definition try {E A} (r : result A) : M E (option error) A :=
  match r with
  | Ok a => ret a
  | Err e => return_ (Some e)
  end.

(** [if err != nil { return err }] *)
Definition check {E} (err : option error) : M E (option error) unit :=
  match err with
  | Some e => return_ (Some e)
  | None => ret tt
  end.

(** [l[0]], which panics on an empty slice. *)
Definition index0 {E R A} (l : list A) : M E R A :=
  match l with
  | x :: _ => ret x
  | [] => panic "runtime error: index out of range"
  end.

(** The complete body of a function: it ends by returning or panicking. *)
Definition Body (E R : Type) : Type := M E R Empty_set.

End Go.

(** ** package proto *)

Module proto.

Definition NodeID : Type := Z.   (* int32 *)
Definition StoreID : Type := Z.  (* int32 *)
Definition Key : Type := list Byte.byte.
Definition Method : Type := Z.   (* enum *)

Record Attributes : Type := { Attrs : list string }.

(** [proto.Replica]: one store's copy of a range. *)
Record Replica : Type := {
  Replica_NodeID : NodeID;
  Replica_StoreID : StoreID
}.

Record RangeDescriptor : Type := {
  StartKey : Key;
  EndKey : Key;
  Replicas : list Replica
}.

Record NodeDescriptor : Type := { Node_NodeID : NodeID }.

Record StoreCapacity : Type := {
  Capacity : Z;    (* int64 *)
  Available : Z;   (* int64 *)
  RangeCount : Z   (* int32 *)
}.

Record StoreDescriptor : Type := {
  Store_StoreID : StoreID;
  Store_Attrs : Attributes;
  Store_Node : NodeDescriptor;
  Store_Capacity : StoreCapacity
}.

(** [desc.Capacity = c] on a copy of [desc]. *)
Definition set_Capacity (c : StoreCapacity) (desc : StoreDescriptor) : StoreDescriptor :=
  {| Store_StoreID := Store_StoreID desc;
     Store_Attrs := Store_Attrs desc;
     Store_Node := Store_Node desc;
     Store_Capacity := c |}.

Record Timestamp : Type := { WallTime : Z; Logical : Z }.

Inductive ReplicaChangeType : Type := ADD_REPLICA | REMOVE_REPLICA.

Inductive TransactionRestart : Type :=
| TransactionRestart_ABORT
| TransactionRestart_BACKOFF
| TransactionRestart_IMMEDIATE.

Global Instance TransactionRestart_eq_dec : EqDecision TransactionRestart.
Proof. solve_decision. Defined.

(** [proto.Error], the error carried by a response header. *)
Record Error : Type := {
  Error_Message : string;
  Error_TransactionRestart : TransactionRestart
}.

Record ResponseHeader : Type := { Header_Error : option Error }.

(** The [Response] interface, through its only method used here. *)
Record Response : Type := { Header : ResponseHeader }.

(** The [Request] interface by dynamic type: a [*BatchRequest] with its
    [Requests] (each entry stands for what [GetInner] gives), or a request
    of any other type, for which [Method()] answers [method]. *)
#[warnings="-register-all"]
Inductive Request : Type :=
| OtherRequest (method : Method)
| BatchRequest (Requests : list Request).

Section RequestMethod.
(** The method constant [proto.Batch] that the [Method] of a
    [BatchRequest] returns is declared outside the files at hand. *)
Variable Batch : Method.

Definition Request_Method (args : Request) : Method :=
  match args with
  | OtherRequest method => method
  | BatchRequest _ => Batch
  end.
End RequestMethod.

Definition Replica_eqb (a b : Replica) : bool :=
  (Replica_NodeID a =? Replica_NodeID b) && (Replica_StoreID a =? Replica_StoreID b).

End proto.

(** ** package config *)

Module config.

Record ZoneConfig : Type := {
  ReplicaAttrs : list proto.Attributes;
  RangeMinBytes : Z;
  RangeMaxBytes : Z
}.

(** The system configuration, through the two lookups the queue uses. *)
Record SystemConfig : Type := {
  ComputeSplitKeys : proto.Key → proto.Key → list proto.Key;
  GetZoneConfigForKey : proto.Key → Go.result ZoneConfig
}.

End config.

(** ** package hlc *)

Module hlc.
(** The clock, through the reading [Now()] gives when it is asked. *)
Record Clock : Type := { Now : proto.Timestamp }.
End hlc.

(** ** package gossip *)

Module gossip.

(** Modelled from the spec: [gossip.MakeStoreKey] is missing from the files
    at hand. The spec (cluster-state feed) says the keys are per-store and
    unique, and [store.go] calls the result the unique gossip key per store;
    the key is the store prefix followed by the store ID in decimal. *)
Definition MakeStoreKey (storeID : proto.StoreID) : string :=
  "store:" +:+ pretty storeID.

(** The gossip network a simulated store holds a pointer to, through the
    answer [AddInfoProto(key, &desc, ttl)] gives. *)
Record Gossip : Type := {
  AddInfoProto : string → proto.StoreDescriptor → Z → option Go.error
}.

End gossip.

(** ** package storage: replicate_queue.go *)

Module storage.

Inductive AllocatorAction : Type :=
| AllocatorNoop
| AllocatorRemove
| AllocatorAdd
| AllocatorRemoveDead.

(** The store pool, through its dead-replica query. *)
Record StorePool : Type := {
  deadReplicas : list proto.Replica → list proto.Replica
}.

(** The allocator, through the operations the queue calls. The last argument
    of [AllocateTarget] is its optional store filter ([nil] is [None]). *)
Record Allocator : Type := {
  storePool : StorePool;
  ComputeAction : config.ZoneConfig → proto.RangeDescriptor → AllocatorAction * float;
  AllocateTarget : proto.Attributes → list proto.Replica → bool →
                   option (proto.StoreDescriptor → bool) → Go.result proto.StoreDescriptor;
  RemoveTarget : list proto.Replica → Go.result proto.Replica;
  ShouldRebalance : proto.StoreID → bool;
  RebalanceTarget : proto.Attributes → list proto.Replica → option proto.StoreDescriptor
}.

(** [storage.Replica], the local replica of a range: its descriptor, the ID
    of the store that holds it ([repl.rm.StoreID()]) and the answer of the
    consensus layer to a membership change. *)
Record Replica : Type := {
  Desc : proto.RangeDescriptor;
  rm_StoreID : proto.StoreID;
  ChangeReplicas : proto.ReplicaChangeType → proto.Replica → proto.RangeDescriptor →
                   option Go.error
}.

(** What a queue operation does to its collaborators, in program order. *)
Inductive Event : Type :=
| ComputeActionCall (zone : config.ZoneConfig) (desc : proto.RangeDescriptor)
    (res : AllocatorAction * float)
| ShouldRebalanceCall (storeID : proto.StoreID) (res : bool)
| DeadReplicasCall (repls : list proto.Replica) (res : list proto.Replica)
| AllocateTargetCall (required : proto.Attributes) (existing : list proto.Replica)
    (relaxConstraints : bool) (res : Go.result proto.StoreDescriptor)
| RemoveTargetCall (existing : list proto.Replica) (res : Go.result proto.Replica)
| RebalanceTargetCall (required : proto.Attributes) (existing : list proto.Replica)
    (res : option proto.StoreDescriptor)
| ChangeReplicasCall (changeType : proto.ReplicaChangeType) (replica : proto.Replica)
    (desc : proto.RangeDescriptor) (res : option Go.error)
| MaybeAddCall (repl : Replica) (now : proto.Timestamp)
| LogError (err : Go.error)
| LogWarningf (format : string) (repl : Replica).

Definition replicateQueueMaxSize : Z := 100.

(** zero duration to process replication greedily *)
Definition replicateQueueTimerDuration : Z := 0.

(** The generic queue engine the replicate queue is built on, as
    [newBaseQueue] is given it; the engine's reference back to the queue it
    drives is left out. *)
Record baseQueue : Type := {
  name : string;
  gossip : gossip.Gossip;
  maxSize : Z
}.

Record replicateQueue : Type := {
  queue : baseQueue;
  allocator : Allocator;
  clock : hlc.Clock
}.

Definition newBaseQueue (name : string) (gossip : gossip.Gossip) (maxSize : Z) : baseQueue :=
  {| name := name; gossip := gossip; maxSize := maxSize |}.

(** [makeReplicateQueue]; its last argument, the rebalancing options, is not
    used by the function. *)
Definition makeReplicateQueue (gossip : gossip.Gossip) (allocator : Allocator)
    (clock : hlc.Clock) : replicateQueue :=
  {| queue := newBaseQueue "replicate" gossip replicateQueueMaxSize;
     allocator := allocator;
     clock := clock |}.

Definition needsLeaderLease (rq : replicateQueue) : bool := true.

Definition acceptsUnsplitRanges (rq : replicateQueue) : bool := false.

Definition timer (rq : replicateQueue) : Z := replicateQueueTimerDuration.

(** Modelled from the spec: [computeQuorum] is missing from the files at
    hand. The spec (data model, Quorum) says that for a replica set of size
    n the quorum is the integer quotient of n by 2, plus 1. *)
Definition computeQuorum (nodes : Z) : Z := nodes `quot` 2 + 1.

Section Queue.

(** [log.V(level)]: whether logging at this verbosity is on. *)
Variable log_V : Z → bool.

Definition shouldQueue (rq : replicateQueue) (now : proto.Timestamp) (repl : Replica)
    (sysCfg : config.SystemConfig) : Go.Body Event (bool * float) :=
  let desc := Desc repl in
  (if 0 <? Go.len (config.ComputeSplitKeys sysCfg (proto.StartKey desc) (proto.EndKey desc))
   then Go.return_ (false, 0%float)
   else mret tt) ;;
  zone ← match config.GetZoneConfigForKey sysCfg (proto.StartKey desc) with
         | Go.Ok zone => mret zone
         | Go.Err err => Go.emit (LogError err) ;; Go.return_ (false, 0%float)
         end ;
  '(action, priority) ← Go.call (ComputeActionCall zone desc)
                           (ComputeAction (allocator rq) zone desc) ;
  (match action with
   | AllocatorNoop => mret tt
   | _ => Go.return_ (true, priority)
   end) ;;
  shouldRebalance ← Go.call (ShouldRebalanceCall (rm_StoreID repl))
                      (ShouldRebalance (allocator rq) (rm_StoreID repl)) ;
  Go.return_ (shouldRebalance, 0%float).

Definition process (rq : replicateQueue) (now : proto.Timestamp) (repl : Replica)
    (sysCfg : config.SystemConfig) : Go.Body Event (option Go.error) :=
  let desc := Desc repl in
  zone ← Go.try (config.GetZoneConfigForKey sysCfg (proto.StartKey desc)) ;
  '(action, _) ← Go.call (ComputeActionCall zone desc)
                    (ComputeAction (allocator rq) zone desc) ;
  deadReplicas ← Go.call (DeadReplicasCall (proto.Replicas desc))
                   (deadReplicas (storePool (allocator rq)) (proto.Replicas desc)) ;
  let quorum := computeQuorum (Go.len (proto.Replicas desc)) in
  let liveReplicaCount := Go.len (proto.Replicas desc) - Go.len deadReplicas in
  (if liveReplicaCount <? quorum
   then Go.return_
          (Some "range requires a replication change, but lacks a quorum of live nodes."%string)
   else mret tt) ;;
  (match action with
   | AllocatorAdd =>
       required ← Go.index0 (config.ReplicaAttrs zone) ;
       newStore ← Go.call (AllocateTargetCall required (proto.Replicas desc) true)
                    (AllocateTarget (allocator rq) required (proto.Replicas desc) true None)
                  ≫= Go.try ;
       let newReplica :=
         {| proto.Replica_NodeID := proto.Node_NodeID (proto.Store_Node newStore);
            proto.Replica_StoreID := proto.Store_StoreID newStore |} in
       Go.call (ChangeReplicasCall proto.ADD_REPLICA newReplica desc)
         (ChangeReplicas repl proto.ADD_REPLICA newReplica desc) ≫= Go.check
   | AllocatorRemove =>
       removeReplica ← Go.call (RemoveTargetCall (proto.Replicas desc))
                         (RemoveTarget (allocator rq) (proto.Replicas desc))
                       ≫= Go.try ;
       Go.call (ChangeReplicasCall proto.REMOVE_REPLICA removeReplica desc)
         (ChangeReplicas repl proto.REMOVE_REPLICA removeReplica desc) ≫= Go.check ;;
       (* Do not requeue if we removed ourselves. *)
       if proto.Replica_StoreID removeReplica =? rm_StoreID repl
       then Go.return_ None
       else mret tt
   | AllocatorRemoveDead =>
       match deadReplicas with
       | [] =>
           if log_V 1
           then Go.emit (LogWarningf "Range of replica %s was identified as having dead replicas, but no dead replicas were found." repl)
           else mret tt
       | dead0 :: _ =>
           Go.call (ChangeReplicasCall proto.REMOVE_REPLICA dead0 desc)
             (ChangeReplicas repl proto.REMOVE_REPLICA dead0 desc) ≫= Go.check
       end
   | AllocatorNoop =>
       required ← Go.index0 (config.ReplicaAttrs zone) ;
       rebalanceStore ← Go.call (RebalanceTargetCall required (proto.Replicas desc))
                          (RebalanceTarget (allocator rq) required (proto.Replicas desc)) ;
       match rebalanceStore with
       | None => Go.return_ None
       | Some rebalanceStore =>
           let rebalanceReplica :=
             {| proto.Replica_NodeID := proto.Node_NodeID (proto.Store_Node rebalanceStore);
                proto.Replica_StoreID := proto.Store_StoreID rebalanceStore |} in
           Go.call (ChangeReplicasCall proto.ADD_REPLICA rebalanceReplica desc)
             (ChangeReplicas repl proto.ADD_REPLICA rebalanceReplica desc) ≫= Go.check
       end
   end) ;;
  (* Enqueue this replica again to see if there are more changes to be made. *)
  Go.emit (MaybeAddCall repl (hlc.Now (clock rq))) ;;
  Go.return_ None.

End Queue.

(** The count [process] compares with the quorum: the replicas of the range
    less those the store pool reports dead. *)
Definition liveReplicaCount (pool : StorePool) (repls : list proto.Replica) : Z :=
  Go.len repls - Go.len (deadReplicas pool repls).

(** Which events change the cluster or the queue: a membership change handed
    to the consensus layer, and a re-offer of the range to the queue. *)
Definition isChangeReplicas (e : Event) : bool :=
  match e with ChangeReplicasCall _ _ _ _ => true | _ => false end.

Definition isMaybeAdd (e : Event) : bool :=
  match e with MaybeAddCall _ _ => true | _ => false end.

Definition isAllocatorCall (e : Event) : bool :=
  match e with
  | ComputeActionCall _ _ _ | ShouldRebalanceCall _ _ | DeadReplicasCall _ _
  | AllocateTargetCall _ _ _ _ | RemoveTargetCall _ _ | RebalanceTargetCall _ _ _ => true
  | _ => false
  end.


(** A trace that ends with the range re-offered to the queue at the reading
    of the clock, and has no other re-offer. *)
Definition requeuedLast (rq : replicateQueue) (repl : Replica) (t : list Event) : Prop :=
  ∃ t0, t = t0 ++ [MaybeAddCall repl (hlc.Now (clock rq))]
        ∧ Forall (λ e, isMaybeAdd e = false) t0.

(** Modelled from the spec: the store pool is missing from the files at hand.
    The spec (data model, Store Pool Snapshot) classifies every store as
    Alive, Dead or Unknown. *)
Inductive Liveness : Type := Alive | Dead | Unknown.

(** Modelled from the spec: the snapshot of the missing store pool is a
    mapping from StoreID to liveness, and a store the pool does not know is
    treated as Unknown (Store Pool contract). *)
Definition storeLiveness (snapshot : gmap proto.StoreID Liveness) (storeID : proto.StoreID)
    : Liveness :=
  default Unknown (snapshot !! storeID).

(** Modelled from the spec: a replica counts as dead for the missing store
    pool when its store is currently classified Dead. *)
Definition onDeadStore (snapshot : gmap proto.StoreID Liveness) (r : proto.Replica) : bool :=
  match storeLiveness snapshot (proto.Replica_StoreID r) with
  | Dead => true
  | _ => false
  end.

(** Modelled from the spec: [deadReplicas] of the missing store pool returns
    the subset of the replicas whose store is currently classified Dead
    (Store Pool contract). *)
Definition snapshotPool (snapshot : gmap proto.StoreID Liveness) : StorePool :=
  {| deadReplicas := List.filter (onDeadStore snapshot) |}.

(** Modelled from the spec: the consensus layer that applies a membership
    change is missing from the files at hand. The spec (data model, Range
    Descriptor) says a replica is in a range at most once per (NodeID,
    StoreID) pair; a REMOVE takes that replica out of the list. *)
Fixpoint removeReplica (r : proto.Replica) (repls : list proto.Replica) : list proto.Replica :=
  match repls with
  | [] => []
  | x :: rest => if proto.Replica_eqb x r then rest else x :: removeReplica r rest
  end.

End storage.

(** ** package main of storage/simulation: store.go *)

Module simulation.

Definition bytesPerRange : Z := 64 ≪ 20.    (* 64 MiB *)
Definition capacityPerStore : Z := 1 ≪ 40.  (* 1 TiB - 32768 ranges per store *)

(** A simulated store. *)
Record Store : Type := {
  desc : proto.StoreDescriptor;
  gossip : gossip.Gossip
}.

(** The only event of a store: a call to the gossip network. *)
Inductive Event : Type :=
| AddInfoProtoCall (key : string) (desc : proto.StoreDescriptor) (ttl : Z)
    (res : option Go.error).

(** [newStore]; the fields the composite literal leaves out are zero. *)
Definition newStore (storeID : proto.StoreID) (nodeDesc : proto.NodeDescriptor)
    (gossip : gossip.Gossip) : Store :=
  {| desc := {| proto.Store_StoreID := storeID;
                proto.Store_Attrs := {| proto.Attrs := [] |};
                proto.Store_Node := nodeDesc;
                proto.Store_Capacity :=
                  {| proto.Capacity := 0; proto.Available := 0; proto.RangeCount := 0 |} |};
     gossip := gossip |}.

(** The methods have the pointer receiver [s *Store]: each takes the store
    and gives back its result together with the store as the call leaves it. *)

Definition getIDs (s : Store) : (proto.StoreID * proto.NodeID) * Store :=
  ((proto.Store_StoreID (desc s), proto.Node_NodeID (proto.Store_Node (desc s))), s).

Definition getCapacity (rangeCount : Z) (s : Store) : proto.StoreCapacity * Store :=
  ({| proto.Capacity := capacityPerStore;
      proto.Available :=
        Go.int64 (capacityPerStore - Go.int64 (Go.int64 rangeCount * bytesPerRange));
      proto.RangeCount := Go.int32 rangeCount |}, s).

Definition getDesc (rangeCount : Z) (s : Store) : proto.StoreDescriptor * Store :=
  let desc0 := desc s in                          (* desc := s.desc, a copy *)
  let '(capacity, s) := getCapacity rangeCount s in
  let desc0 := proto.set_Capacity capacity desc0 in
  (desc0, s).

Definition gossipStore (rangeCount : Z) (s : Store)
    : Go.Body Event (option Go.error) * Store :=
  let '(desc0, s) := getDesc rangeCount s in
  (* Unique gossip key per store. *)
  let gossipKey := gossip.MakeStoreKey (proto.Store_StoreID desc0) in
  (* Gossip store descriptor. *)
  (Go.call (AddInfoProtoCall gossipKey desc0 0)
     (gossip.AddInfoProto (gossip s) gossipKey desc0 0) ≫= Go.return_,
   s).

(** [String]: the status of the store in human readable form; [%d] prints
    an integer in decimal, with a minus sign when it is negative. *)
Definition Store_String (rangeCount : Z) (s : Store) : string * Store :=
  let '(desc0, s) := getDesc rangeCount s in
  ("Store " +:+ pretty (proto.Store_StoreID desc0)
   +:+ " - Node:" +:+ pretty (proto.Node_NodeID (proto.Store_Node desc0))
   +:+ ", Replicas:" +:+ pretty (proto.RangeCount (proto.Store_Capacity desc0))
   +:+ ", AvailableReplicas:"
   +:+ pretty (Go.int64 (proto.Available (proto.Store_Capacity desc0) `quot` bytesPerRange))
   +:+ ", Capacity:" +:+ pretty (proto.Capacity (proto.Store_Capacity desc0))
   +:+ ", Available:" +:+ pretty (proto.Available (proto.Store_Capacity desc0)),
   s).

(** *** node.go *)

(** A simulated node: its descriptor, its stores by ID, and the gossip
    network. *)
Record Node : Type := {
  node_desc : proto.NodeDescriptor;
  stores : gmap proto.StoreID Store;
  node_gossip : gossip.Gossip
}.

(** [newNode] creates a new node with no stores. *)
Definition newNode (nodeID : proto.NodeID) (gossip : gossip.Gossip) : Node :=
  {| node_desc := {| proto.Node_NodeID := nodeID |};
     stores := ∅;
     node_gossip := gossip |}.

(** [getStoreIDs] ranges over the map of stores, in an order Go leaves open:
    [getStoreIDs_returns n storeIDs] holds of every list the call may return. *)
Definition getStoreIDs_returns (n : Node) (storeIDs : list proto.StoreID) : Prop :=
  storeIDs ≡ₚ (map_to_list (stores n)).*1.

(** [getNextStoreID]: the ID for the next store of the node. *)
Definition getNextStoreID (n : Node) : proto.StoreID * Node :=
  (Go.int32
     (Go.int64
        (Go.int64 (Go.int64 (proto.Node_NodeID (node_desc n)) * 1000)
         + Z.of_nat (size (stores n)))),
   n).

(** [addNewStore] creates a new store and adds it to the node. *)
Definition addNewStore (n : Node) : Store * Node :=
  let '(newStoreID, n) := getNextStoreID n in
  let newStore0 := newStore newStoreID (node_desc n) (node_gossip n) in
  (newStore0,
   {| node_desc := node_desc n;
      stores := <[newStoreID := newStore0]> (stores n);
      node_gossip := node_gossip n |}).

(** [k] calls of [addNewStore] in a row. *)
Fixpoint addNewStores (k : nat) (n : Node) : Node :=
  match k with
  | O => n
  | S k => (addNewStore (addNewStores k n)).2
  end.

End simulation.

(** ** package util: the event feed *)

Module util.
(** A feed, by identity; a [*util.Feed] is [None] when it is nil. *)
Definition Feed : Type := positive.
End util.

(** ** package status: feed.go *)

Module status.

Record StartNodeEvent : Type := {
  StartNode_Desc : proto.NodeDescriptor;
  StartNode_StartedAt : Z
}.

Record CallSuccessEvent : Type := {
  CallSuccess_NodeID : proto.NodeID;
  CallSuccess_Method : proto.Method
}.

Record CallErrorEvent : Type := {
  CallError_NodeID : proto.NodeID;
  CallError_Method : proto.Method
}.

(** The values handed to [Publish]. *)
Inductive NodeEvent : Type :=
| OfStartNode (event : StartNodeEvent)
| OfCallSuccess (event : CallSuccessEvent)
| OfCallError (event : CallErrorEvent).

Record NodeEventFeed : Type := {
  id : proto.NodeID;
  f : option util.Feed
}.

(** The only effect of the event methods: [nef.f.Publish(event)]. *)
Inductive Effect : Type :=
| PublishCall (feed : option util.Feed) (event : NodeEvent).

Definition NewNodeEventFeed (id : proto.NodeID) (feed : option util.Feed) : NodeEventFeed :=
  {| id := id; f := feed |}.

Definition StartNode (nef : NodeEventFeed) (desc : proto.NodeDescriptor) (startedAt : Z)
    : Go.Body Effect unit :=
  Go.emit (PublishCall (f nef)
             (OfStartNode {| StartNode_Desc := desc; StartNode_StartedAt := startedAt |})) ;;
  Go.return_ tt.

Section Feed.
Variable Batch : proto.Method.

Definition CallComplete (nef : NodeEventFeed) (args : proto.Request) (reply : proto.Response)
    : Go.Body Effect unit :=
  let method := proto.Request_Method Batch args in
  let method :=
    match args with
    | proto.BatchRequest (first :: _) => proto.Request_Method Batch first
    | _ => method
    end in
  (match proto.Header_Error (proto.Header reply) with
   | Some err =>
       if decide (proto.Error_TransactionRestart err = proto.TransactionRestart_ABORT)
       then Go.emit (PublishCall (f nef)
                       (OfCallError {| CallError_NodeID := id nef;
                                       CallError_Method := method |}))
       else Go.emit (PublishCall (f nef)
                       (OfCallSuccess {| CallSuccess_NodeID := id nef;
                                         CallSuccess_Method := method |}))
   | None =>
       Go.emit (PublishCall (f nef)
                  (OfCallSuccess {| CallSuccess_NodeID := id nef;
                                    CallSuccess_Method := method |}))
   end) ;;
  Go.return_ tt.

End Feed.

(** A value of type [interface{}] as [ProcessNodeEvent] tells them apart: a
    pointer to one of the node events, a pointer to a trace, or anything
    else. The type of traces belongs to the tracer package. *)
Inductive Any (Trace : Type) : Type :=
| AnyNodeEvent (event : NodeEvent)
| AnyTrace (trace : Trace)
| AnyOther.
Arguments AnyNodeEvent {Trace} event.
Arguments AnyTrace {Trace} trace.
Arguments AnyOther {Trace}.

(** The interface [NodeEventListener]; a method gives the listener as the
    call leaves it. *)
Class NodeEventListener (Trace L : Type) : Type := {
  OnStartNode : StartNodeEvent → L → L;
  OnCallSuccess : CallSuccessEvent → L → L;
  OnCallError : CallErrorEvent → L → L;
  OnTrace : Trace → L → L
}.

(** [ProcessNodeEvent] dispatches an event on the listener. *)
Definition ProcessNodeEvent {Trace L} `{!NodeEventListener Trace L} (l : L)
    (event : Any Trace) : L :=
  match event with
  | AnyNodeEvent (OfStartNode specificEvent) => OnStartNode specificEvent l
  | AnyTrace specificEvent => OnTrace specificEvent l
  | AnyNodeEvent (OfCallSuccess specificEvent) => OnCallSuccess specificEvent l
  | AnyNodeEvent (OfCallError specificEvent) => OnCallError specificEvent l
  | AnyOther => l
  end.

(** The listener that keeps the calls made to it, latest last. *)
Inductive ListenerCall (Trace : Type) : Type :=
| CalledOnStartNode (event : StartNodeEvent)
| CalledOnCallSuccess (event : CallSuccessEvent)
| CalledOnCallError (event : CallErrorEvent)
| CalledOnTrace (trace : Trace).
Arguments CalledOnStartNode {Trace} event.
Arguments CalledOnCallSuccess {Trace} event.
Arguments CalledOnCallError {Trace} event.
Arguments CalledOnTrace {Trace} trace.

Global Instance recorder (Trace : Type) : NodeEventListener Trace (list (ListenerCall Trace)) := {
  OnStartNode event l := l ++ [CalledOnStartNode event];
  OnCallSuccess event l := l ++ [CalledOnCallSuccess event];
  OnCallError event l := l ++ [CalledOnCallError event];
  OnTrace trace l := l ++ [CalledOnTrace trace]
}.

End status.

(** ** package kv: the histories of the transaction correctness test *)

Module kv.

(** [areHistoriesSymmetric] returns whether all txn histories are the same. *)
Definition areHistoriesSymmetric (txns : list string) : bool :=
  match txns with
  | [] => true
  | first :: rest => forallb (λ txn, bool_decide (txn = first)) rest
  end.

(** The loop of [enumeratePriorities], over the function called for the
    priorities left over. *)
Definition enumeratePriorities_body (enumeratePriorities : list Z → list (list Z))
    (priorities : list Z) : list (list Z) :=
  foldl (λ results i,
           match priorities !! i with
           | None => results    (* not reached: i < len(priorities) *)
           | Some p =>
               let leftover :=
                 enumeratePriorities (take i priorities ++ drop (S i) priorities) in
               let results :=
                 if decide (length leftover = 0%nat) then [[p]] else results in
               results ++ ((λ l, p :: l) <$> leftover)
           end)
    [] (seq 0 (length priorities)).

(** [enumeratePriorities] calls itself on a slice that is one shorter: the
    recursion is on a bound of the depth of the calls. *)
Fixpoint enumeratePriorities_depth (depth : nat) (priorities : list Z) : list (list Z) :=
  match depth with
  | O => []
  | S depth => enumeratePriorities_body (enumeratePriorities_depth depth) priorities
  end.

(** [enumeratePriorities] returns a slice enumerating all combinations of
    the specified slice of priorities. *)
Definition enumeratePriorities (priorities : list Z) : list (list Z) :=
  enumeratePriorities_depth (S (length priorities)) priorities.

(** The results of [enumeratePriorities] that begin with the priority at
    index [i]. *)
Definition enumeratePriorities_headed (priorities : list Z) (i : nat) : list (list Z) :=
  match priorities !! i with
  | Some p => (λ l, p :: l) <$> enumeratePriorities (delete i priorities)
  | None => []
  end.

Section Histories.
(** The commands, which the source handles by pointer. *)
Context {cmd : Type}.

(** One round of the loop of [enumerateHistories], for the transaction at
    index [i]; [None] is the panic of an index out of range. *)
Definition enumerateHistories_iteration
    (enumerateHistories : list (list cmd) → option (list (list cmd)))
    (txns : list (list cmd)) (results : list (list cmd)) (i : nat)
    : option (list (list cmd)) :=
  txn ← txns !! i;
  match txn with
  | [] => Some results
  | first :: rest =>
      let cp := <[i := rest]> txns in
      leftover ← enumerateHistories cp;
      let results := if decide (length leftover = 0%nat) then [[first]] else results in
      Some (results ++ ((λ h, first :: h) <$> leftover))
  end.

(** The loop of [enumerateHistories], over the function called for the
    transactions with one command taken off. *)
Definition enumerateHistories_body
    (enumerateHistories : list (list cmd) → option (list (list cmd)))
    (txns : list (list cmd)) (symmetric : bool) : option (list (list cmd)) :=
  let numTxns := if symmetric then 1%nat else length txns in
  foldl (λ acc i, results ← acc; enumerateHistories_iteration enumerateHistories txns results i)
    (Some []) (seq 0 numTxns).

(** [enumerateHistories] calls itself with one command less, and with
    [symmetric] false: the recursion is on a bound of the depth of the calls. *)
Fixpoint enumerateHistories_depth (depth : nat) (txns : list (list cmd)) (symmetric : bool)
    : option (list (list cmd)) :=
  match depth with
  | O => Some []
  | S depth =>
      enumerateHistories_body (λ cp, enumerateHistories_depth depth cp false) txns symmetric
  end.

(** [enumerateHistories] returns a slice enumerating all combinations of
    collated histories possible given the specified transactions. *)
Definition enumerateHistories (txns : list (list cmd)) (symmetric : bool)
    : option (list (list cmd)) :=
  enumerateHistories_depth (S (length (mjoin txns))) txns symmetric.

(** A history that has every command of the transactions once and the
    commands of each transaction in their order. *)
Definition interleaves (txns : list (list cmd)) (h : list cmd) : Prop :=
  h ≡ₚ mjoin txns ∧ ∀ i txn, txns !! i = Some txn → txn `sublist_of` h.

End Histories.
End kv.

(** ** Concrete ranges, pools and allocators *)

Module fixtures.

Definition replicaOn (n : Z) : proto.Replica :=
  {| proto.Replica_NodeID := n; proto.Replica_StoreID := n |}.

Definition storeOn (n : Z) : proto.StoreDescriptor :=
  {| proto.Store_StoreID := n;
     proto.Store_Attrs := {| proto.Attrs := [] |};
     proto.Store_Node := {| proto.Node_NodeID := n |};
     proto.Store_Capacity :=
       {| proto.Capacity := 0; proto.Available := 0; proto.RangeCount := 0 |} |}.

(** A range over the stores [stores], held locally by store [self]; every
    membership change is accepted. *)
Definition rangeOn (stores : list Z) (self : Z) : storage.Replica :=
  {| storage.Desc := {| proto.StartKey := []; proto.EndKey := [];
                        proto.Replicas := replicaOn <$> stores |};
     storage.rm_StoreID := self;
     storage.ChangeReplicas := λ _ _ _, None |}.

(** A zone that asks for [n] replicas. *)
Definition zoneOf (n : nat) : config.ZoneConfig :=
  {| config.ReplicaAttrs := replicate n {| proto.Attrs := [] |};
     config.RangeMinBytes := 0;
     config.RangeMaxBytes := 0 |}.

Definition unsplit (zone : Go.result config.ZoneConfig) : config.SystemConfig :=
  {| config.ComputeSplitKeys := λ _ _, [];
     config.GetZoneConfigForKey := λ _, zone |}.

(** An allocator over the pool [pool] that answers [action] with priority
    [priority], removes the first replica, adds or rebalances towards store
    [target], and finds a rebalance worthwhile iff [rebalance]. *)
Definition allocatorOf (pool : storage.StorePool) (action : storage.AllocatorAction)
    (priority : float) (target : option Z) (rebalance : bool) : storage.Allocator :=
  {| storage.storePool := pool;
     storage.ComputeAction := λ _ _, (action, priority);
     storage.AllocateTarget := λ _ _ _ _,
       match target with
       | Some n => Go.Ok (storeOn n)
       | None => Go.Err "no suitable store"
       end;
     storage.RemoveTarget := λ repls,
       match repls with
       | r :: _ => Go.Ok r
       | [] => Go.Err "no replicas"
       end;
     storage.ShouldRebalance := λ _, rebalance;
     storage.RebalanceTarget := λ _ _, storeOn <$> target |}.

Definition clockAt (wall : Z) : hlc.Clock :=
  {| hlc.Now := {| proto.WallTime := wall; proto.Logical := 0 |} |}.

(** A gossip network that accepts every descriptor. *)
Definition accepting : gossip.Gossip := {| gossip.AddInfoProto := λ _ _ _, None |}.

Definition queueOf (a : storage.Allocator) : storage.replicateQueue :=
  storage.makeReplicateQueue accepting a (clockAt 7).

Definition quiet : Z → bool := λ _, false.

Definition now0 : proto.Timestamp := {| proto.WallTime := 0; proto.Logical := 0 |}.

End fixtures.

(** * Properties *)

(** ** The monad of traces *)

Lemma bind_ret {E R A B} (f : A → Go.M E R B) (a : A) : Go.bind f (Go.ret a) = f a.
Proof. unfold Go.bind, Go.ret. by destruct (f a). Qed.

Lemma ret_bind {E R A} (m : Go.M E R A) : Go.bind Go.ret m = m.
Proof. destruct m as [t [a | r | msg]]; simpl; try done. by rewrite app_nil_r. Qed.

Lemma bind_assoc {E R A B C} (f : A → Go.M E R B) (g : B → Go.M E R C) (m : Go.M E R A) :
  Go.bind g (Go.bind f m) = Go.bind (λ a, Go.bind g (f a)) m.
Proof.
  destruct m as [t [a | r | msg]]; simpl; try done.
  destruct (f a) as [t' [b | r | msg]]; simpl; try done.
  destruct (g b) as [t'' o]. by rewrite app_assoc.
Qed.

(** Run a queue operation symbolically: unfold the monad and split on every
    answer of a collaborator the control flow depends on. *)
Ltac run_queue :=
  unfold storage.process, storage.shouldQueue, storage.liveReplicaCount,
    mbind, mret, Go.M_bind, Go.M_ret, Go.try, Go.check, Go.call, Go.emit,
    Go.return_, Go.index0, Go.panic, Go.ret, Go.bind in *;
  repeat (simpl in *; case_match; simplify_eq); simpl in *.

(** ** Quorum *)

(** The quorum of a replica list is half its length, rounded down, plus one. *)
Lemma computeQuorum_len {A} (l : list A) :
  storage.computeQuorum (Go.len l) = Go.len l `div` 2 + 1.
Proof.
  unfold storage.computeQuorum, Go.len.
  rewrite Z.quot_div_nonneg; lia.
Qed.

(** ** Configuration of the replicate queue *)

(** C7: the configuration of the replication queue plug-in is constant:
    [needsLeaderLease] is true, [acceptsUnsplitRanges] is false and [timer]
    is the zero duration, whatever the queue. *)
Theorem replicateQueue_configuration (rq : storage.replicateQueue) :
  storage.needsLeaderLease rq = true
  ∧ storage.acceptsUnsplitRanges rq = false
  ∧ storage.timer rq = 0.
Proof. by repeat split. Qed.

(** ** [process] without a quorum of live replicas *)

(** C2: the quorum is half the replica count, rounded down, plus one; when
    the live replica count (replicas less dead replicas) is below it,
    [process] returns an error, and its trace has no membership change and no
    re-offer to the queue: every event is a query of the allocator. *)
Theorem process_lacks_quorum (log_V : Z → bool) (rq : storage.replicateQueue)
    (now : proto.Timestamp) (repl : storage.Replica) (sysCfg : config.SystemConfig) :
  storage.liveReplicaCount (storage.storePool (storage.allocator rq))
      (proto.Replicas (storage.Desc repl))
    < storage.computeQuorum (Go.len (proto.Replicas (storage.Desc repl))) →
  storage.computeQuorum (Go.len (proto.Replicas (storage.Desc repl)))
    = Go.len (proto.Replicas (storage.Desc repl)) `div` 2 + 1
  ∧ (∃ err, (storage.process log_V rq now repl sysCfg).2 = Go.Return (Some err))
  ∧ Forall (λ e, storage.isAllocatorCall e = true
                 ∧ storage.isChangeReplicas e = false
                 ∧ storage.isMaybeAdd e = false)
      (storage.process log_V rq now repl sysCfg).1.
Proof.
  intros Hlive. split; [apply computeQuorum_len|].
  unfold storage.liveReplicaCount in Hlive. apply Z.ltb_lt in Hlive.
  unfold storage.process, mbind, Go.M_bind.
  destruct (config.GetZoneConfigForKey sysCfg _) as [zone | err]; simpl.
  - destruct (storage.ComputeAction _ zone _) as [action priority]; simpl.
    rewrite Hlive; simpl. split; [by eexists|].
    by repeat constructor.
  - split; [by eexists|]. constructor.
Qed.

(** The scenario of the spec: three replicas, two of them on dead stores. *)
Lemma process_lacks_quorum_witness :
  ∃ err,
    (storage.process fixtures.quiet
       (fixtures.queueOf
          (fixtures.allocatorOf
             (storage.snapshotPool {[ 2 := storage.Dead; 3 := storage.Dead ]})
             storage.AllocatorRemoveDead 1 None false))
       fixtures.now0 (fixtures.rangeOn [1; 2; 3] 1)
       (fixtures.unsplit (Go.Ok (fixtures.zoneOf 3)))).2
    = Go.Return (Some err).
Proof.
  apply (process_lacks_quorum fixtures.quiet
           (fixtures.queueOf
              (fixtures.allocatorOf
                 (storage.snapshotPool {[ 2 := storage.Dead; 3 := storage.Dead ]})
                 storage.AllocatorRemoveDead 1 None false))
           fixtures.now0 (fixtures.rangeOn [1; 2; 3] 1)
           (fixtures.unsplit (Go.Ok (fixtures.zoneOf 3)))).
  vm_compute. reflexivity.
Defined.

(** ** [shouldQueue] *)

(** C3, as the code has it: a range that still has split keys is not queued,
    and the allocator is not consulted (the trace is empty); otherwise, when
    the zone lookup fails, the error is logged and the range is not queued,
    again without consulting the allocator; when the lookup succeeds and the
    action is not Noop, the range is queued with the priority of the action;
    when the lookup succeeds and the action is Noop, the range is queued, at
    priority zero, iff [ShouldRebalance] holds of this store. *)
Theorem shouldQueue_cases (rq : storage.replicateQueue) (now : proto.Timestamp)
    (repl : storage.Replica) (sysCfg : config.SystemConfig) :
  (config.ComputeSplitKeys sysCfg (proto.StartKey (storage.Desc repl))
       (proto.EndKey (storage.Desc repl)) ≠ [] →
   storage.shouldQueue rq now repl sysCfg = ([], Go.Return (false, 0%float)))
  ∧ (config.ComputeSplitKeys sysCfg (proto.StartKey (storage.Desc repl))
       (proto.EndKey (storage.Desc repl)) = [] →
     (∀ err,
        config.GetZoneConfigForKey sysCfg (proto.StartKey (storage.Desc repl)) = Go.Err err →
        storage.shouldQueue rq now repl sysCfg
        = ([storage.LogError err], Go.Return (false, 0%float)))
     ∧ (∀ zone action priority,
        config.GetZoneConfigForKey sysCfg (proto.StartKey (storage.Desc repl)) = Go.Ok zone →
        storage.ComputeAction (storage.allocator rq) zone (storage.Desc repl)
        = (action, priority) →
        (action ≠ storage.AllocatorNoop →
         storage.shouldQueue rq now repl sysCfg
         = ([storage.ComputeActionCall zone (storage.Desc repl) (action, priority)],
            Go.Return (true, priority)))
        ∧ (action = storage.AllocatorNoop →
           storage.shouldQueue rq now repl sysCfg
           = ([storage.ComputeActionCall zone (storage.Desc repl) (action, priority);
               storage.ShouldRebalanceCall (storage.rm_StoreID repl)
                 (storage.ShouldRebalance (storage.allocator rq) (storage.rm_StoreID repl))],
              Go.Return
                (storage.ShouldRebalance (storage.allocator rq) (storage.rm_StoreID repl),
                 0%float))))).
Proof.
  split.
  - intros Hsplit. unfold storage.shouldQueue, mbind, Go.M_bind.
    destruct (config.ComputeSplitKeys sysCfg _ _); [done|]. done.
  - intros Hsplit. unfold storage.shouldQueue, mbind, Go.M_bind.
    rewrite Hsplit. simpl. split.
    + intros err ->. done.
    + intros zone action priority -> Haction. simpl. rewrite Haction. simpl.
      split; intros Hnoop.
      * by destruct action.
      * by subst action.
Qed.

(** An unsplit range with three replicas where the zone asks for three: the
    action is Noop, and the range is queued because the store is worth
    rebalancing. *)
Lemma shouldQueue_cases_witness :
  storage.shouldQueue
    (fixtures.queueOf
       (fixtures.allocatorOf (storage.snapshotPool ∅) storage.AllocatorNoop 0 None true))
    fixtures.now0 (fixtures.rangeOn [1; 2; 3] 1)
    (fixtures.unsplit (Go.Ok (fixtures.zoneOf 3)))
  = ([storage.ComputeActionCall (fixtures.zoneOf 3)
        (storage.Desc (fixtures.rangeOn [1; 2; 3] 1)) (storage.AllocatorNoop, 0%float);
      storage.ShouldRebalanceCall 1 true],
     Go.Return (true, 0%float)).
Proof.
  pose proof (shouldQueue_cases
                (fixtures.queueOf
                   (fixtures.allocatorOf (storage.snapshotPool ∅)
                      storage.AllocatorNoop 0 None true))
                fixtures.now0 (fixtures.rangeOn [1; 2; 3] 1)
                (fixtures.unsplit (Go.Ok (fixtures.zoneOf 3)))) as [_ H].
  destruct (H eq_refl) as [_ H'].
  destruct (H' (fixtures.zoneOf 3) storage.AllocatorNoop 0%float eq_refl eq_refl) as [_ H''].
  exact (H'' eq_refl).
Defined.

(** C3 as stated fails when the zone lookup fails: the range has no split
    keys, [ShouldRebalance] holds of this store, and yet [shouldQueue]
    answers (false, 0), not ([ShouldRebalance] of this store, 0). *)
Lemma shouldQueue_lookup_failure :
  let rq := fixtures.queueOf
              (fixtures.allocatorOf (storage.snapshotPool ∅) storage.AllocatorNoop 0 None true) in
  let repl := fixtures.rangeOn [1; 2; 3] 1 in
  let sysCfg := fixtures.unsplit (Go.Err "no zone config") in
  config.ComputeSplitKeys sysCfg (proto.StartKey (storage.Desc repl))
    (proto.EndKey (storage.Desc repl)) = []
  ∧ storage.ShouldRebalance (storage.allocator rq) (storage.rm_StoreID repl) = true
  ∧ (storage.shouldQueue rq fixtures.now0 repl sysCfg).2 = Go.Return (false, 0%float)
  ∧ (storage.shouldQueue rq fixtures.now0 repl sysCfg).2
    ≠ Go.Return
        (storage.ShouldRebalance (storage.allocator rq) (storage.rm_StoreID repl), 0%float).
Proof. simpl. repeat split. intros H. discriminate H. Qed.

(** ** [process]: re-offering the range *)

Ltac in_trace :=
  repeat match goal with
         | H : _ ∈ [] |- _ => by apply elem_of_nil in H
         | H : _ ∈ _ :: _ |- _ => apply elem_of_cons in H; destruct H as [H | H]
         | H : Exists _ [] |- _ => by apply Exists_nil in H
         | H : Exists _ (_ :: _) |- _ => apply Exists_cons in H; destruct H as [H | H]
         end;
  simplify_eq.


Ltac requeued :=
  match goal with
  | |- storage.requeuedLast _ _ ?t =>
      let t0 := eval simpl in (removelast t) in
      exists t0; split; [reflexivity | by repeat constructor]
  end.



(** ** [process]: the Noop action *)

(** C5: when the action is Noop and [RebalanceTarget] gives no store,
    [process] returns nil, and has handed over no membership change and has
    not re-offered the range; when [RebalanceTarget] gives a store, [process]
    hands over an ADD of the replica with the NodeID and StoreID of that
    store, recorded with the answer of the consensus layer: when the change
    is accepted, [process] returns nil with the range re-offered to the
    queue, and when it is refused, [process] returns the error of the refusal
    and does not re-offer the range. With a quorum of live replicas and a
    first replica-attribute slot in the zone, [process] does ask
    [RebalanceTarget], for that slot and the replicas of the range. *)
Theorem process_noop (log_V : Z → bool) (rq : storage.replicateQueue)
    (now : proto.Timestamp) (repl : storage.Replica) (sysCfg : config.SystemConfig)
    (zone : config.ZoneConfig) (priority : float) :
  storage.ComputeActionCall zone (storage.Desc repl) (storage.AllocatorNoop, priority)
    ∈ (storage.process log_V rq now repl sysCfg).1 →
  (∀ required existing,
     storage.RebalanceTargetCall required existing None
       ∈ (storage.process log_V rq now repl sysCfg).1 →
     (storage.process log_V rq now repl sysCfg).2 = Go.Return None
     ∧ Forall (λ e, storage.isChangeReplicas e = false ∧ storage.isMaybeAdd e = false)
         (storage.process log_V rq now repl sysCfg).1)
  ∧ (∀ required existing rebalanceStore,
       storage.RebalanceTargetCall required existing (Some rebalanceStore)
         ∈ (storage.process log_V rq now repl sysCfg).1 →
       storage.ChangeReplicasCall proto.ADD_REPLICA
         {| proto.Replica_NodeID := proto.Node_NodeID (proto.Store_Node rebalanceStore);
            proto.Replica_StoreID := proto.Store_StoreID rebalanceStore |}
         (storage.Desc repl)
         (storage.ChangeReplicas repl proto.ADD_REPLICA
            {| proto.Replica_NodeID := proto.Node_NodeID (proto.Store_Node rebalanceStore);
               proto.Replica_StoreID := proto.Store_StoreID rebalanceStore |}
            (storage.Desc repl))
         ∈ (storage.process log_V rq now repl sysCfg).1
       ∧ (storage.ChangeReplicas repl proto.ADD_REPLICA
            {| proto.Replica_NodeID := proto.Node_NodeID (proto.Store_Node rebalanceStore);
               proto.Replica_StoreID := proto.Store_StoreID rebalanceStore |}
            (storage.Desc repl) = None →
          (storage.process log_V rq now repl sysCfg).2 = Go.Return None
          ∧ storage.requeuedLast rq repl (storage.process log_V rq now repl sysCfg).1)
       ∧ (∀ err,
            storage.ChangeReplicas repl proto.ADD_REPLICA
              {| proto.Replica_NodeID := proto.Node_NodeID (proto.Store_Node rebalanceStore);
                 proto.Replica_StoreID := proto.Store_StoreID rebalanceStore |}
              (storage.Desc repl) = Some err →
            (storage.process log_V rq now repl sysCfg).2 = Go.Return (Some err)
            ∧ Forall (λ e, storage.isMaybeAdd e = false)
                (storage.process log_V rq now repl sysCfg).1))
  ∧ (∀ required rest,
       config.ReplicaAttrs zone = required :: rest →
       storage.computeQuorum (Go.len (proto.Replicas (storage.Desc repl)))
       ≤ storage.liveReplicaCount (storage.storePool (storage.allocator rq))
           (proto.Replicas (storage.Desc repl)) →
       storage.RebalanceTargetCall required (proto.Replicas (storage.Desc repl))
         (storage.RebalanceTarget (storage.allocator rq) required
            (proto.Replicas (storage.Desc repl)))
         ∈ (storage.process log_V rq now repl sysCfg).1).
Proof.
  intros Hnoop.
  destruct (storage.process log_V rq now repl sysCfg) as [t o] eqn:Hrun.
  simpl in *.
  run_queue; in_trace.
  all: split_and!;
    [ intros ?? Hcall; in_trace
    | intros ??? Hcall; in_trace
    | intros required rest Hattrs Hquorum ].
  all: try match goal with
           | H : (_ <? _) = true |- _ => apply Z.ltb_lt in H; lia
           end.
  all: try congruence.
  all: try match goal with
           | H : config.ReplicaAttrs ?z = _ :: _, H' : config.ReplicaAttrs ?z = _ :: _ |- _ =>
               rewrite H in H'; injection H' as <- <-
           end.
  all: try match goal with
           | H : storage.RebalanceTarget _ _ _ = _ |- _ ∈ _ => rewrite H
           end.
  all: try (repeat first [apply list_elem_of_here | apply list_elem_of_further]).
  - (* a rebalance target, the change accepted *)
    split_and!.
    + match goal with H : storage.ChangeReplicas _ _ _ _ = _ |- _ => rewrite H end.
      repeat first [apply list_elem_of_here | apply list_elem_of_further].
    + intros _. split; [done | requeued].
    + intros err Herr. congruence.
  - (* a rebalance target, the change refused *)
    split_and!.
    + match goal with H : storage.ChangeReplicas _ _ _ _ = _ |- _ => rewrite H end.
      repeat first [apply list_elem_of_here | apply list_elem_of_further].
    + intros Hnone. congruence.
    + intros err Herr. split; [congruence | by repeat constructor].
  - (* no rebalance target *)
    split; [done|]. by repeat constructor.
Qed.

(** With a zone lookup that succeeds, the Noop action, a quorum of live
    replicas and a first replica-attribute slot, [process] does ask the
    allocator for a rebalance target. *)
Lemma process_noop_asks_rebalance (log_V : Z → bool) (rq : storage.replicateQueue)
    (now : proto.Timestamp) (repl : storage.Replica) (sysCfg : config.SystemConfig)
    (zone : config.ZoneConfig) (priority : float) (required : proto.Attributes)
    (rest : list proto.Attributes) :
  config.GetZoneConfigForKey sysCfg (proto.StartKey (storage.Desc repl)) = Go.Ok zone →
  storage.ComputeAction (storage.allocator rq) zone (storage.Desc repl)
  = (storage.AllocatorNoop, priority) →
  storage.computeQuorum (Go.len (proto.Replicas (storage.Desc repl)))
  ≤ storage.liveReplicaCount (storage.storePool (storage.allocator rq))
      (proto.Replicas (storage.Desc repl)) →
  config.ReplicaAttrs zone = required :: rest →
  storage.RebalanceTargetCall required (proto.Replicas (storage.Desc repl))
    (storage.RebalanceTarget (storage.allocator rq) required
       (proto.Replicas (storage.Desc repl)))
  ∈ (storage.process log_V rq now repl sysCfg).1.
Proof.
  intros Hzone Haction Hquorum Hattrs.
  unfold storage.liveReplicaCount in Hquorum. apply Z.ltb_ge in Hquorum.
  unfold storage.process, mbind, mret, Go.M_bind, Go.M_ret, Go.try, Go.check, Go.call,
    Go.emit, Go.return_, Go.index0, Go.ret, Go.bind.
  rewrite Hzone, Haction, Hquorum, Hattrs. simpl.
  repeat (case_match; simplify_eq; simpl).
  all: repeat first [apply list_elem_of_here | apply list_elem_of_further].
Qed.

(** The scenario of the spec: the zone asks for two replicas, the range has
    two live ones, and the allocator has the rebalance target store 4. *)
Lemma process_noop_witness :
  storage.ChangeReplicasCall proto.ADD_REPLICA (fixtures.replicaOn 4)
    (storage.Desc (fixtures.rangeOn [1; 2] 1)) None
    ∈ (storage.process fixtures.quiet
         (fixtures.queueOf
            (fixtures.allocatorOf (storage.snapshotPool ∅)
               storage.AllocatorNoop 0 (Some 4) true))
         fixtures.now0 (fixtures.rangeOn [1; 2] 1)
         (fixtures.unsplit (Go.Ok (fixtures.zoneOf 2)))).1
  ∧ (storage.process fixtures.quiet
       (fixtures.queueOf
          (fixtures.allocatorOf (storage.snapshotPool ∅)
             storage.AllocatorNoop 0 (Some 4) true))
       fixtures.now0 (fixtures.rangeOn [1; 2] 1)
       (fixtures.unsplit (Go.Ok (fixtures.zoneOf 2)))).2
    = Go.Return None
  ∧ storage.requeuedLast
      (fixtures.queueOf
         (fixtures.allocatorOf (storage.snapshotPool ∅)
            storage.AllocatorNoop 0 (Some 4) true))
      (fixtures.rangeOn [1; 2] 1)
      (storage.process fixtures.quiet
         (fixtures.queueOf
            (fixtures.allocatorOf (storage.snapshotPool ∅)
               storage.AllocatorNoop 0 (Some 4) true))
         fixtures.now0 (fixtures.rangeOn [1; 2] 1)
         (fixtures.unsplit (Go.Ok (fixtures.zoneOf 2)))).1.
Proof.
  destruct (process_noop fixtures.quiet
              (fixtures.queueOf
                 (fixtures.allocatorOf (storage.snapshotPool ∅)
                    storage.AllocatorNoop 0 (Some 4) true))
              fixtures.now0 (fixtures.rangeOn [1; 2] 1)
              (fixtures.unsplit (Go.Ok (fixtures.zoneOf 2)))
              (fixtures.zoneOf 2) 0%float) as (_ & Hsome & Hasks).
  - vm_compute. apply list_elem_of_here.
  - destruct (Hsome {| proto.Attrs := [] |}
                (proto.Replicas (storage.Desc (fixtures.rangeOn [1; 2] 1)))
                (fixtures.storeOn 4)) as (Hadd & Haccepted & _).
    + apply (Hasks {| proto.Attrs := [] |} [{| proto.Attrs := [] |}]).
      * reflexivity.
      * vm_compute. discriminate.
    + destruct (Haccepted eq_refl) as [Hnil Hlast].
      split_and!; [exact Hadd | exact Hnil | exact Hlast].
Defined.

(** ** [process]: the RemoveDead action *)

(** C6, as the code has it: when the action is RemoveDead and the live
    replica count is at least the quorum, then, if the store pool reports at
    least one dead replica, [process] hands over a REMOVE of the first of
    them, and, if it reports none, [process] hands over no membership change
    and returns nil. *)
Theorem process_removeDead (log_V : Z → bool) (rq : storage.replicateQueue)
    (now : proto.Timestamp) (repl : storage.Replica) (sysCfg : config.SystemConfig)
    (zone : config.ZoneConfig) (priority : float) (repls dead : list proto.Replica) :
  storage.ComputeActionCall zone (storage.Desc repl) (storage.AllocatorRemoveDead, priority)
    ∈ (storage.process log_V rq now repl sysCfg).1 →
  storage.DeadReplicasCall repls dead ∈ (storage.process log_V rq now repl sysCfg).1 →
  storage.computeQuorum (Go.len repls) ≤ Go.len repls - Go.len dead →
  (∀ dead0 rest, dead = dead0 :: rest →
     ∃ res, storage.ChangeReplicasCall proto.REMOVE_REPLICA dead0 (storage.Desc repl) res
              ∈ (storage.process log_V rq now repl sysCfg).1)
  ∧ (dead = [] →
     (storage.process log_V rq now repl sysCfg).2 = Go.Return None
     ∧ Forall (λ e, storage.isChangeReplicas e = false)
         (storage.process log_V rq now repl sysCfg).1).
Proof.
  intros Haction Hdead Hquorum.
  destruct (storage.process log_V rq now repl sysCfg) as [t o] eqn:Hrun.
  simpl in *.
  run_queue; in_trace.
  all: try match goal with
           | H : (_ <? _) = true |- _ => apply Z.ltb_lt in H; simpl in *; lia
           end.
  all: split; [intros dead0 rest Heq | intros Heq]; simplify_eq.
  all: match goal with
       | |- ∃ _, _ =>
           eexists; repeat first [apply list_elem_of_here | apply list_elem_of_further]
       | |- _ ∧ _ => split; [done | by repeat constructor]
       end.
Qed.

(** Three replicas, the one on store 3 dead: the live count 2 is the quorum
    of 3, and [process] hands over the REMOVE of that replica. *)
Lemma process_removeDead_witness :
  ∃ res,
    storage.ChangeReplicasCall proto.REMOVE_REPLICA (fixtures.replicaOn 3)
      (storage.Desc (fixtures.rangeOn [1; 2; 3] 1)) res
      ∈ (storage.process fixtures.quiet
           (fixtures.queueOf
              (fixtures.allocatorOf (storage.snapshotPool {[ 3 := storage.Dead ]})
                 storage.AllocatorRemoveDead 1 None false))
           fixtures.now0 (fixtures.rangeOn [1; 2; 3] 1)
           (fixtures.unsplit (Go.Ok (fixtures.zoneOf 3)))).1.
Proof.
  destruct (process_removeDead fixtures.quiet
              (fixtures.queueOf
                 (fixtures.allocatorOf (storage.snapshotPool {[ 3 := storage.Dead ]})
                    storage.AllocatorRemoveDead 1 None false))
              fixtures.now0 (fixtures.rangeOn [1; 2; 3] 1)
              (fixtures.unsplit (Go.Ok (fixtures.zoneOf 3)))
              (fixtures.zoneOf 3) 1%float
              (fixtures.replicaOn <$> [1; 2; 3]) [fixtures.replicaOn 3]) as [Hsome _].
  - vm_compute. apply list_elem_of_here.
  - vm_compute. apply list_elem_of_further, list_elem_of_here.
  - vm_compute. discriminate.
  - exact (Hsome (fixtures.replicaOn 3) [] eq_refl).
Defined.

(** C6 as stated fails without a quorum of live replicas: of three replicas
    the two on stores 2 and 3 are dead and the action is RemoveDead, yet
    [process] asks the allocator and the pool, hands over no REMOVE and
    returns the quorum error. *)
Lemma process_removeDead_lacks_quorum :
  storage.process fixtures.quiet
    (fixtures.queueOf
       (fixtures.allocatorOf
          (storage.snapshotPool {[ 2 := storage.Dead; 3 := storage.Dead ]})
          storage.AllocatorRemoveDead 2 None false))
    fixtures.now0 (fixtures.rangeOn [1; 2; 3] 1)
    (fixtures.unsplit (Go.Ok (fixtures.zoneOf 3)))
  = ([storage.ComputeActionCall (fixtures.zoneOf 3)
        (storage.Desc (fixtures.rangeOn [1; 2; 3] 1)) (storage.AllocatorRemoveDead, 2%float);
      storage.DeadReplicasCall (fixtures.replicaOn <$> [1; 2; 3])
        [fixtures.replicaOn 2; fixtures.replicaOn 3]],
     Go.Return
       (Some "range requires a replication change, but lacks a quorum of live nodes."%string)).
Proof. vm_compute. reflexivity. Qed.

(** ** [process]: the quorum around a REMOVE *)

Section RemoveQuorum.

Variable snapshot : gmap proto.StoreID storage.Liveness.

Lemma Replica_eqb_eq (a b : proto.Replica) : proto.Replica_eqb a b = true → a = b.
Proof.
  unfold proto.Replica_eqb. intros [Hn Hs]%andb_prop.
  apply Z.eqb_eq in Hn, Hs. destruct a, b; simpl in *; congruence.
Qed.

Lemma liveReplicaCount_cons (x : proto.Replica) (l : list proto.Replica) :
  storage.liveReplicaCount (storage.snapshotPool snapshot) (x :: l)
  = storage.liveReplicaCount (storage.snapshotPool snapshot) l + (if storage.onDeadStore snapshot x then 0 else 1).
Proof.
  unfold storage.liveReplicaCount, Go.len. simpl.
  destruct (storage.onDeadStore snapshot x); simpl; lia.
Qed.

(** A REMOVE takes at most one live replica out of the range. *)
Lemma liveReplicaCount_removeReplica (r : proto.Replica) (l : list proto.Replica) :
  storage.liveReplicaCount (storage.snapshotPool snapshot) l - 1
  ≤ storage.liveReplicaCount (storage.snapshotPool snapshot) (storage.removeReplica r l).
Proof.
  induction l as [|x l IH]; simpl; [done|].
  destruct (proto.Replica_eqb x r) eqn:Heq.
  - rewrite liveReplicaCount_cons. destruct (storage.onDeadStore snapshot x); lia.
  - rewrite !liveReplicaCount_cons. lia.
Qed.

(** A REMOVE of a replica on a dead store takes no live replica out. *)
Lemma liveReplicaCount_removeReplica_dead (r : proto.Replica) (l : list proto.Replica) :
  storage.onDeadStore snapshot r = true →
  storage.liveReplicaCount (storage.snapshotPool snapshot) (storage.removeReplica r l)
  = storage.liveReplicaCount (storage.snapshotPool snapshot) l.
Proof.
  intros Hdead. induction l as [|x l IH]; simpl; [done|].
  destruct (proto.Replica_eqb x r) eqn:Heq.
  - apply Replica_eqb_eq in Heq. subst x.
    rewrite liveReplicaCount_cons, Hdead. lia.
  - rewrite !liveReplicaCount_cons. lia.
Qed.

(** The first replica the pool reports dead is on a dead store. *)
Lemma deadReplicas_head (l : list proto.Replica) (dead0 : proto.Replica)
    (rest : list proto.Replica) :
  storage.deadReplicas (storage.snapshotPool snapshot) l = dead0 :: rest → storage.onDeadStore snapshot dead0 = true.
Proof.
  simpl. intros Heq.
  assert (Hin : In dead0 (List.filter (storage.onDeadStore snapshot) l))
    by (rewrite Heq; by left).
  by apply filter_In in Hin as [_ ?].
Qed.

Lemma quorum_after_removal (n : Z) : 0 ≤ n → (n - 1) `div` 2 + 1 ≤ n `div` 2 + 1.
Proof.
  intros Hn. apply Z.add_le_mono_r, Z.div_le_mono; lia.
Qed.

(** C1, as the code has it: [process] hands over a REMOVE only when the live
    replica count before the change is at least the quorum of the present
    replica set, half of n rounded down plus one; after the REMOVE the live
    count is at least half of n rounded down; and after the REMOVE of the
    RemoveDead action, which takes out a replica on a dead store, it is at
    least the quorum of the replica set after the removal, half of n-1
    rounded down plus one. *)
Theorem process_remove_quorum (log_V : Z → bool) (rq : storage.replicateQueue)
    (now : proto.Timestamp) (repl : storage.Replica) (sysCfg : config.SystemConfig)
    (removed : proto.Replica) (desc : proto.RangeDescriptor) (res : option Go.error) :
  storage.storePool (storage.allocator rq) = storage.snapshotPool snapshot →
  storage.ChangeReplicasCall proto.REMOVE_REPLICA removed desc res
    ∈ (storage.process log_V rq now repl sysCfg).1 →
  Go.len (proto.Replicas desc) `div` 2 + 1
    ≤ storage.liveReplicaCount (storage.snapshotPool snapshot) (proto.Replicas desc)
  ∧ Go.len (proto.Replicas desc) `div` 2
    ≤ storage.liveReplicaCount (storage.snapshotPool snapshot)
        (storage.removeReplica removed (proto.Replicas desc))
  ∧ (∀ zone priority,
       storage.ComputeActionCall zone desc (storage.AllocatorRemoveDead, priority)
         ∈ (storage.process log_V rq now repl sysCfg).1 →
       (Go.len (proto.Replicas desc) - 1) `div` 2 + 1
       ≤ storage.liveReplicaCount (storage.snapshotPool snapshot)
           (storage.removeReplica removed (proto.Replicas desc))).
Proof.
  intros Hpool Hremove.
  destruct (storage.process log_V rq now repl sysCfg) as [t o] eqn:Hrun.
  simpl in *.
  run_queue; in_trace.
  all: rewrite Hpool in *.
  all: match goal with
       | H : (_ <? _) = false |- _ =>
           apply Z.ltb_ge in H; rewrite computeQuorum_len in H
       end.
  all: try match goal with
           | H : storage.deadReplicas _ ?l = ?d :: _ |- _ =>
               pose proof (deadReplicas_head _ _ _ H) as Hdead;
               pose proof (liveReplicaCount_removeReplica_dead d l Hdead) as Hsame;
               rewrite <- H in *
           end.
  all: match goal with
       | |- context [storage.removeReplica ?r ?l] =>
           pose proof (liveReplicaCount_removeReplica r l) as Hafter;
           pose proof (quorum_after_removal (Go.len l) ltac:(unfold Go.len; lia)) as Hless
       end.
  all: unfold storage.liveReplicaCount in *; simpl storage.deadReplicas in *.
  all: split; [lia|split; [lia|]].
  all: intros zone priority Haction; in_trace.
  all: lia.
Qed.

End RemoveQuorum.

(** Three replicas, the one on store 3 dead, the action RemoveDead: the
    REMOVE of that replica leaves two live replicas, the quorum of two. *)
Lemma process_remove_quorum_witness :
  (Go.len (proto.Replicas (storage.Desc (fixtures.rangeOn [1; 2; 3] 1))) - 1) `div` 2 + 1
  ≤ storage.liveReplicaCount (storage.snapshotPool {[ 3 := storage.Dead ]})
      (storage.removeReplica (fixtures.replicaOn 3)
         (proto.Replicas (storage.Desc (fixtures.rangeOn [1; 2; 3] 1)))).
Proof.
  destruct (process_remove_quorum {[ 3 := storage.Dead ]} fixtures.quiet
              (fixtures.queueOf
                 (fixtures.allocatorOf (storage.snapshotPool {[ 3 := storage.Dead ]})
                    storage.AllocatorRemoveDead 1 None false))
              fixtures.now0 (fixtures.rangeOn [1; 2; 3] 1)
              (fixtures.unsplit (Go.Ok (fixtures.zoneOf 3)))
              (fixtures.replicaOn 3) (storage.Desc (fixtures.rangeOn [1; 2; 3] 1)) None)
    as (_ & _ & Hdead).
  - reflexivity.
  - vm_compute. do 2 apply list_elem_of_further. apply list_elem_of_here.
  - apply (Hdead (fixtures.zoneOf 3) 1%float).
    vm_compute. apply list_elem_of_here.
Defined.

(** C1 as stated fails for the Remove action. The allocator has answered
    Remove for a range of three replicas; when [process] asks the pool, the
    replica on store 3 is dead, so the live count 2 is the quorum of 3 and
    [process] goes on; the allocator picks the live replica on store 1,
    [process] hands over its REMOVE, and the two replicas left have one live
    replica, below the quorum 2 of the replica set after the removal. *)
Lemma process_remove_below_quorum :
  storage.ChangeReplicasCall proto.REMOVE_REPLICA (fixtures.replicaOn 1)
    (storage.Desc (fixtures.rangeOn [1; 2; 3] 2)) None
    ∈ (storage.process fixtures.quiet
         (fixtures.queueOf
            (fixtures.allocatorOf (storage.snapshotPool {[ 3 := storage.Dead ]})
               storage.AllocatorRemove 1 None false))
         fixtures.now0 (fixtures.rangeOn [1; 2; 3] 2)
         (fixtures.unsplit (Go.Ok (fixtures.zoneOf 2)))).1
  ∧ storage.liveReplicaCount (storage.snapshotPool {[ 3 := storage.Dead ]})
      (storage.removeReplica (fixtures.replicaOn 1)
         (proto.Replicas (storage.Desc (fixtures.rangeOn [1; 2; 3] 2))))
    < (Go.len (proto.Replicas (storage.Desc (fixtures.rangeOn [1; 2; 3] 2))) - 1) `div` 2 + 1.
Proof.
  split.
  - vm_compute. do 3 apply list_elem_of_further. apply list_elem_of_here.
  - vm_compute. reflexivity.
Qed.

(** ** Simulated stores *)

Lemma wrap_id (w x : Z) : 0 < w → - 2 ^ (w - 1) ≤ x < 2 ^ (w - 1) → Go.wrap w x = x.
Proof.
  intros Hw Hx. unfold Go.wrap.
  assert (H2 : 2 ^ w = 2 * 2 ^ (w - 1)).
  { replace w with (Z.succ (w - 1)) at 1 by lia. rewrite Z.pow_succ_r; lia. }
  rewrite Z.mod_small; lia.
Qed.

(** The store keys are unique. *)
Lemma MakeStoreKey_inj (storeID1 storeID2 : proto.StoreID) :
  gossip.MakeStoreKey storeID1 = gossip.MakeStoreKey storeID2 → storeID1 = storeID2.
Proof.
  unfold gossip.MakeStoreKey. intros Hkey.
  apply (inj (String.append "store:")) in Hkey.
  by apply (inj pretty) in Hkey.
Qed.

(** Within the int32 range the capacity is computed without wrap-around. *)
Lemma getCapacity_exact (rangeCount : Z) (s : simulation.Store) :
  - 2 ^ 31 ≤ rangeCount < 2 ^ 31 →
  (simulation.getCapacity rangeCount s).1
  = {| proto.Capacity := 2 ^ 40;
       proto.Available := 2 ^ 40 - rangeCount * 2 ^ 26;
       proto.RangeCount := rangeCount |}.
Proof.
  intros Hrange. unfold simulation.getCapacity, Go.int64, Go.int32. simpl.
  change simulation.capacityPerStore with (2 ^ 40).
  change simulation.bytesPerRange with (2 ^ 26).
  rewrite (wrap_id 32 rangeCount), (wrap_id 64 rangeCount) by lia.
  rewrite (wrap_id 64 (rangeCount * 2 ^ 26)) by lia.
  rewrite (wrap_id 64) by lia. done.
Qed.

(** C8, as the code has it: for a range count in the int32 range,
    [gossipStore] hands to the gossip network, under the key built from the
    StoreID of the store and with ttl 0, the descriptor of the store with
    the capacity recomputed: Capacity 2^40, Available 2^40 less 2^26 per
    range, RangeCount the range count; the event is the only one, the store
    is left as it was, and stores with distinct IDs have distinct keys. *)
Theorem gossipStore_publishes (rangeCount : Z) (s : simulation.Store) :
  - 2 ^ 31 ≤ rangeCount < 2 ^ 31 →
  simulation.gossipStore rangeCount s
  = (([simulation.AddInfoProtoCall
         (gossip.MakeStoreKey (proto.Store_StoreID (simulation.desc s)))
         (proto.set_Capacity
            {| proto.Capacity := 2 ^ 40;
               proto.Available := 2 ^ 40 - rangeCount * 2 ^ 26;
               proto.RangeCount := rangeCount |}
            (simulation.desc s))
         0
         (gossip.AddInfoProto (simulation.gossip s)
            (gossip.MakeStoreKey (proto.Store_StoreID (simulation.desc s)))
            (proto.set_Capacity
               {| proto.Capacity := 2 ^ 40;
                  proto.Available := 2 ^ 40 - rangeCount * 2 ^ 26;
                  proto.RangeCount := rangeCount |}
               (simulation.desc s))
            0)],
      Go.Return
        (gossip.AddInfoProto (simulation.gossip s)
           (gossip.MakeStoreKey (proto.Store_StoreID (simulation.desc s)))
           (proto.set_Capacity
              {| proto.Capacity := 2 ^ 40;
                 proto.Available := 2 ^ 40 - rangeCount * 2 ^ 26;
                 proto.RangeCount := rangeCount |}
              (simulation.desc s))
           0)),
     s)
  ∧ (∀ other : proto.StoreID,
       other ≠ proto.Store_StoreID (simulation.desc s) →
       gossip.MakeStoreKey other
       ≠ gossip.MakeStoreKey (proto.Store_StoreID (simulation.desc s))).
Proof.
  intros Hrange. split.
  - unfold simulation.gossipStore, simulation.getDesc.
    pose proof (getCapacity_exact rangeCount s Hrange) as Hcap.
    destruct (simulation.getCapacity rangeCount s) as [capacity s'] eqn:Hget.
    assert (s' = s) by (unfold simulation.getCapacity in Hget; by simplify_eq).
    simpl in Hcap. subst. reflexivity.
  - intros other Hother Hkey. by apply MakeStoreKey_inj in Hkey.
Qed.

(** Store 1001 of node 1 with 3 ranges. *)
Lemma gossipStore_publishes_witness :
  simulation.gossipStore 3
    (simulation.newStore 1001 {| proto.Node_NodeID := 1 |} fixtures.accepting)
  = (([simulation.AddInfoProtoCall "store:1001"
         {| proto.Store_StoreID := 1001;
            proto.Store_Attrs := {| proto.Attrs := [] |};
            proto.Store_Node := {| proto.Node_NodeID := 1 |};
            proto.Store_Capacity :=
              {| proto.Capacity := 1099511627776;
                 proto.Available := 1099310301184;
                 proto.RangeCount := 3 |} |}
         0 None],
      Go.Return None),
     simulation.newStore 1001 {| proto.Node_NodeID := 1 |} fixtures.accepting).
Proof.
  destruct (gossipStore_publishes 3
              (simulation.newStore 1001 {| proto.Node_NodeID := 1 |} fixtures.accepting))
    as [Hrun _].
  - lia.
  - rewrite Hrun. vm_compute. reflexivity.
Defined.

(** C8 as stated fails beyond the int32 range: with 2^31 ranges the
    descriptor handed to the gossip network has the RangeCount -2^31. *)
Lemma gossipStore_rangeCount_wraps :
  simulation.gossipStore (2 ^ 31)
    (simulation.newStore 1001 {| proto.Node_NodeID := 1 |} fixtures.accepting)
  = (([simulation.AddInfoProtoCall "store:1001"
         {| proto.Store_StoreID := 1001;
            proto.Store_Attrs := {| proto.Attrs := [] |};
            proto.Store_Node := {| proto.Node_NodeID := 1 |};
            proto.Store_Capacity :=
              {| proto.Capacity := 2 ^ 40;
                 proto.Available := 2 ^ 40 - 2 ^ 31 * 2 ^ 26;
                 proto.RangeCount := - 2 ^ 31 |} |}
         0 None],
      Go.Return None),
     simulation.newStore 1001 {| proto.Node_NodeID := 1 |} fixtures.accepting)
  ∧ proto.RangeCount
      (proto.Store_Capacity
         (simulation.getDesc (2 ^ 31)
            (simulation.newStore 1001 {| proto.Node_NodeID := 1 |} fixtures.accepting)).1)
    ≠ 2 ^ 31.
Proof. split; [vm_compute; reflexivity | vm_compute; discriminate]. Qed.

(** C10: [getDesc] leaves the store as it was, and the descriptor it returns
    is the stored descriptor with the capacity replaced: the StoreID, the
    attributes and the node are the stored ones, which for a new store are
    the ID and the node descriptor it was made with. *)
Theorem getDesc_frame (rangeCount : Z) (s : simulation.Store) :
  (simulation.getDesc rangeCount s).2 = s
  ∧ (simulation.getDesc rangeCount s).1
    = proto.set_Capacity (proto.Store_Capacity (simulation.getDesc rangeCount s).1)
        (simulation.desc s)
  ∧ proto.Store_StoreID (simulation.getDesc rangeCount s).1
    = proto.Store_StoreID (simulation.desc s)
  ∧ proto.Store_Attrs (simulation.getDesc rangeCount s).1
    = proto.Store_Attrs (simulation.desc s)
  ∧ proto.Store_Node (simulation.getDesc rangeCount s).1
    = proto.Store_Node (simulation.desc s)
  ∧ (∀ storeID nodeDesc g,
       s = simulation.newStore storeID nodeDesc g →
       proto.Store_StoreID (simulation.getDesc rangeCount s).1 = storeID
       ∧ proto.Store_Node (simulation.getDesc rangeCount s).1 = nodeDesc).
Proof.
  unfold simulation.getDesc, simulation.getCapacity. simpl.
  repeat split; by intros; subst.
Qed.

(** Store 1001 of node 1, asked for its descriptor with 3 ranges. *)
Lemma getDesc_frame_witness :
  proto.Store_StoreID
    (simulation.getDesc 3
       (simulation.newStore 1001 {| proto.Node_NodeID := 1 |} fixtures.accepting)).1
  = 1001
  ∧ proto.Store_Node
      (simulation.getDesc 3
         (simulation.newStore 1001 {| proto.Node_NodeID := 1 |} fixtures.accepting)).1
    = {| proto.Node_NodeID := 1 |}.
Proof.
  destruct (getDesc_frame 3
              (simulation.newStore 1001 {| proto.Node_NodeID := 1 |} fixtures.accepting))
    as (_ & _ & _ & _ & _ & Hnew).
  exact (Hnew 1001 {| proto.Node_NodeID := 1 |} fixtures.accepting eq_refl).
Defined.

(** ** The node event feed *)

Section CallComplete.

Variable Batch : proto.Method.

(** C9: [CallComplete] publishes exactly one event on the feed of the node.
    The event is a [CallErrorEvent] when the header of the response carries
    an error whose TransactionRestart is ABORT, and a [CallSuccessEvent] in
    every other case, also when the header carries an error with another
    TransactionRestart; so it is a [CallErrorEvent] iff the error is such.
    The event has the ID of the node and the method of the request, which for
    a batch with at least one inner request is the method of the first. *)
Theorem CallComplete_publishes (nef : status.NodeEventFeed) (args : proto.Request)
    (reply : proto.Response) :
  ∃ event method,
    status.CallComplete Batch nef args reply
    = ([status.PublishCall (status.f nef) event], Go.Return tt)
    ∧ (∀ first rest,
         args = proto.BatchRequest (first :: rest) →
         method = proto.Request_Method Batch first)
    ∧ ((∀ first rest, args ≠ proto.BatchRequest (first :: rest)) →
       method = proto.Request_Method Batch args)
    ∧ ((∃ err, proto.Header_Error (proto.Header reply) = Some err
               ∧ proto.Error_TransactionRestart err = proto.TransactionRestart_ABORT) →
       event = status.OfCallError {| status.CallError_NodeID := status.id nef;
                                     status.CallError_Method := method |})
    ∧ (¬ (∃ err, proto.Header_Error (proto.Header reply) = Some err
                 ∧ proto.Error_TransactionRestart err = proto.TransactionRestart_ABORT) →
       event = status.OfCallSuccess {| status.CallSuccess_NodeID := status.id nef;
                                       status.CallSuccess_Method := method |})
    ∧ ((∃ e, event = status.OfCallError e) ↔
       (∃ err, proto.Header_Error (proto.Header reply) = Some err
               ∧ proto.Error_TransactionRestart err = proto.TransactionRestart_ABORT)).
Proof.
  unfold status.CallComplete.
  set (method := match args with
                 | proto.BatchRequest (first :: _) => proto.Request_Method Batch first
                 | _ => proto.Request_Method Batch args
                 end).
  assert (Hfirst : ∀ first rest,
             args = proto.BatchRequest (first :: rest) →
             method = proto.Request_Method Batch first)
    by (by intros first rest ->).
  assert (Hother : (∀ first rest, args ≠ proto.BatchRequest (first :: rest)) →
                   method = proto.Request_Method Batch args).
  { intros Hno. subst method. destruct args as [m | [| first rest]]; try done.
    by destruct (Hno first rest). }
  destruct (proto.Header_Error (proto.Header reply)) as [err|] eqn:Herr.
  - destruct (decide (proto.Error_TransactionRestart err = proto.TransactionRestart_ABORT))
      as [Habort | Hnot].
    + eexists _, method. split; [done|]. repeat split; try done.
      * intros []. eauto.
      * intros _. eauto.
      * intros _. eauto.
    + eexists _, method. split; [done|]. repeat split; try done.
      * intros (err' & ? & ?). by simplify_eq.
      * intros [e He]. discriminate He.
      * intros (err' & ? & ?). by simplify_eq.
  - eexists _, method. split; [done|]. repeat split; try done.
    + intros (err' & ? & ?). discriminate.
    + intros [e He]. discriminate He.
    + intros (err' & ? & ?). discriminate.
Qed.

End CallComplete.

(** A batch whose first inner request has method 4, answered with an error
    that asks for a back-off: a [CallSuccessEvent] with method 4. *)
Lemma CallComplete_publishes_witness :
  status.CallComplete 99 (status.NewNodeEventFeed 1 (Some 1%positive))
    (proto.BatchRequest [proto.OtherRequest 4; proto.OtherRequest 5])
    {| proto.Header :=
         {| proto.Header_Error :=
              Some {| proto.Error_Message := "retry";
                      proto.Error_TransactionRestart := proto.TransactionRestart_BACKOFF |} |} |}
  = ([status.PublishCall (Some 1%positive)
        (status.OfCallSuccess {| status.CallSuccess_NodeID := 1;
                                 status.CallSuccess_Method := 4 |})],
     Go.Return tt).
Proof.
  destruct (CallComplete_publishes 99 (status.NewNodeEventFeed 1 (Some 1%positive))
              (proto.BatchRequest [proto.OtherRequest 4; proto.OtherRequest 5])
              {| proto.Header :=
                   {| proto.Header_Error :=
                        Some {| proto.Error_Message := "retry";
                                proto.Error_TransactionRestart :=
                                  proto.TransactionRestart_BACKOFF |} |} |})
    as (event & method & Hrun & Hfirst & _ & _ & Hsuccess & _).
  rewrite Hrun, Hsuccess.
  - by rewrite (Hfirst (proto.OtherRequest 4) [proto.OtherRequest 5] eq_refl).
  - intros (err & Herr & Habort). simpl in Herr. by simplify_eq.
Defined.

(** * Further properties of the replicate queue *)

(** X1: [process] re-offers the range to the queue only on the way to
    returning nil: a trace with a re-offer ends with it, and the result is
    nil; so neither an error nor a panic ever follows or precedes a re-offer. *)
Theorem process_requeue_only_on_success (log_V : Z → bool) (rq : storage.replicateQueue)
    (now : proto.Timestamp) (repl : storage.Replica) (sysCfg : config.SystemConfig) :
  existsb storage.isMaybeAdd (storage.process log_V rq now repl sysCfg).1 = true →
  (storage.process log_V rq now repl sysCfg).2 = Go.Return None
  ∧ storage.requeuedLast rq repl (storage.process log_V rq now repl sysCfg).1.
Proof.
  intros Hadd.
  destruct (storage.process log_V rq now repl sysCfg) as [t o] eqn:Hrun.
  simpl in *.
  run_queue; try discriminate.
  all: split; [done | requeued].
Qed.

Lemma process_requeue_only_on_success_witness :
  (storage.process fixtures.quiet
     (fixtures.queueOf
        (fixtures.allocatorOf (storage.snapshotPool ∅) storage.AllocatorAdd 1 (Some 4) false))
     fixtures.now0 (fixtures.rangeOn [1; 2] 1)
     (fixtures.unsplit (Go.Ok (fixtures.zoneOf 3)))).2
  = Go.Return None.
Proof.
  apply (process_requeue_only_on_success fixtures.quiet
           (fixtures.queueOf
              (fixtures.allocatorOf (storage.snapshotPool ∅) storage.AllocatorAdd 1 (Some 4) false))
           fixtures.now0 (fixtures.rangeOn [1; 2] 1)
           (fixtures.unsplit (Go.Ok (fixtures.zoneOf 3)))).
  vm_compute. reflexivity.
Defined.

(** X2: one run of [process] hands at most one membership change to the
    consensus layer. *)
Theorem process_at_most_one_change (log_V : Z → bool) (rq : storage.replicateQueue)
    (now : proto.Timestamp) (repl : storage.Replica) (sysCfg : config.SystemConfig) :
  (length (List.filter storage.isChangeReplicas
             (storage.process log_V rq now repl sysCfg).1) ≤ 1)%nat.
Proof.
  destruct (storage.process log_V rq now repl sysCfg) as [t o] eqn:Hrun.
  simpl. run_queue; lia.
Qed.

(** X3: every membership change [process] hands over is made against the
    descriptor of the replica as [process] read it, and is made only with a
    quorum of live replicas, whatever the store pool and whether the change
    is an ADD or a REMOVE; when the consensus layer refuses the change,
    [process] returns the error of the refusal and does not re-offer the
    range. *)
Theorem process_change_guarded (log_V : Z → bool) (rq : storage.replicateQueue)
    (now : proto.Timestamp) (repl : storage.Replica) (sysCfg : config.SystemConfig)
    (changeType : proto.ReplicaChangeType) (replica : proto.Replica)
    (desc : proto.RangeDescriptor) (res : option Go.error) :
  storage.ChangeReplicasCall changeType replica desc res
    ∈ (storage.process log_V rq now repl sysCfg).1 →
  desc = storage.Desc repl
  ∧ res = storage.ChangeReplicas repl changeType replica desc
  ∧ storage.computeQuorum (Go.len (proto.Replicas desc))
    ≤ storage.liveReplicaCount (storage.storePool (storage.allocator rq))
        (proto.Replicas desc)
  ∧ (∀ err, res = Some err →
       (storage.process log_V rq now repl sysCfg).2 = Go.Return (Some err)
       ∧ Forall (λ e, storage.isMaybeAdd e = false)
           (storage.process log_V rq now repl sysCfg).1).
Proof.
  intros Hchange.
  destruct (storage.process log_V rq now repl sysCfg) as [t o] eqn:Hrun.
  simpl in *.
  run_queue; in_trace.
  all: match goal with
       | H : (_ <? _) = false |- _ => apply Z.ltb_ge in H
       end.
  all: repeat split; try done; try congruence.
  all: try (intros err Herr; simplify_eq).
  all: try (intros err Herr; split; [congruence | by repeat constructor]).
  all: try by repeat constructor.
Qed.

Lemma process_change_guarded_witness :
  storage.computeQuorum (Go.len (proto.Replicas (storage.Desc (fixtures.rangeOn [1; 2] 1))))
  ≤ storage.liveReplicaCount (storage.snapshotPool ∅)
      (proto.Replicas (storage.Desc (fixtures.rangeOn [1; 2] 1))).
Proof.
  destruct (process_change_guarded fixtures.quiet
              (fixtures.queueOf
                 (fixtures.allocatorOf (storage.snapshotPool ∅)
                    storage.AllocatorAdd 1 (Some 4) false))
              fixtures.now0 (fixtures.rangeOn [1; 2] 1)
              (fixtures.unsplit (Go.Ok (fixtures.zoneOf 3)))
              proto.ADD_REPLICA (fixtures.replicaOn 4)
              (storage.Desc (fixtures.rangeOn [1; 2] 1)) None)
    as (_ & _ & Hquorum & _).
  - vm_compute. do 3 apply list_elem_of_further. apply list_elem_of_here.
  - exact Hquorum.
Defined.

(** X4: the kind of membership change follows the action the allocator
    computed: an ADD is handed over only for the actions Add and Noop, a
    REMOVE only for the actions Remove and RemoveDead. *)
Theorem process_change_type (log_V : Z → bool) (rq : storage.replicateQueue)
    (now : proto.Timestamp) (repl : storage.Replica) (sysCfg : config.SystemConfig)
    (changeType : proto.ReplicaChangeType) (replica : proto.Replica)
    (desc : proto.RangeDescriptor) (res : option Go.error) :
  storage.ChangeReplicasCall changeType replica desc res
    ∈ (storage.process log_V rq now repl sysCfg).1 →
  ∃ zone action priority,
    storage.ComputeActionCall zone desc (action, priority)
      ∈ (storage.process log_V rq now repl sysCfg).1
    ∧ (changeType = proto.ADD_REPLICA ↔
       action = storage.AllocatorAdd ∨ action = storage.AllocatorNoop)
    ∧ (changeType = proto.REMOVE_REPLICA ↔
       action = storage.AllocatorRemove ∨ action = storage.AllocatorRemoveDead).
Proof.
  intros Hchange.
  destruct (storage.process log_V rq now repl sysCfg) as [t o] eqn:Hrun.
  simpl in *.
  run_queue; in_trace.
  all: eexists _, _, _; split; [apply list_elem_of_here|].
  all: split; split; intros; try done; try (by left); try (by right).
  all: match goal with H : _ ∨ _ |- _ => by destruct H end.
Qed.

Lemma process_change_type_witness :
  ∃ zone action priority,
    storage.ComputeActionCall zone (storage.Desc (fixtures.rangeOn [1; 2; 3] 1))
      (action, priority)
      ∈ (storage.process fixtures.quiet
           (fixtures.queueOf
              (fixtures.allocatorOf (storage.snapshotPool {[ 3 := storage.Dead ]})
                 storage.AllocatorRemoveDead 1 None false))
           fixtures.now0 (fixtures.rangeOn [1; 2; 3] 1)
           (fixtures.unsplit (Go.Ok (fixtures.zoneOf 3)))).1
    ∧ (action = storage.AllocatorRemove ∨ action = storage.AllocatorRemoveDead).
Proof.
  destruct (process_change_type fixtures.quiet
              (fixtures.queueOf
                 (fixtures.allocatorOf (storage.snapshotPool {[ 3 := storage.Dead ]})
                    storage.AllocatorRemoveDead 1 None false))
              fixtures.now0 (fixtures.rangeOn [1; 2; 3] 1)
              (fixtures.unsplit (Go.Ok (fixtures.zoneOf 3)))
              proto.REMOVE_REPLICA (fixtures.replicaOn 3)
              (storage.Desc (fixtures.rangeOn [1; 2; 3] 1)) None)
    as (zone & action & priority & Haction & _ & Hremove).
  - vm_compute. do 2 apply list_elem_of_further. apply list_elem_of_here.
  - exists zone, action, priority. split; [exact Haction|]. by apply Hremove.
Defined.





Ltac same_answers :=
  repeat match goal with
         | H : ?x = _, H' : ?x = _ |- _ => rewrite H in H'; simplify_eq
         end.

(** X7: [process] panics exactly when it indexes the first
    replica-attribute slot of a zone that has none: the zone lookup
    succeeded, the range has a quorum of live replicas, the action is Add or
    Noop, and the zone has no replica attributes. With a zone that has a
    replica-attribute slot [process] always returns. *)
Theorem process_panics_iff (log_V : Z → bool) (rq : storage.replicateQueue)
    (now : proto.Timestamp) (repl : storage.Replica) (sysCfg : config.SystemConfig) :
  (∃ msg, (storage.process log_V rq now repl sysCfg).2 = Go.Panic msg)
  ↔ (∃ zone action priority,
       config.GetZoneConfigForKey sysCfg (proto.StartKey (storage.Desc repl)) = Go.Ok zone
       ∧ storage.ComputeAction (storage.allocator rq) zone (storage.Desc repl)
         = (action, priority)
       ∧ (action = storage.AllocatorAdd ∨ action = storage.AllocatorNoop)
       ∧ config.ReplicaAttrs zone = []
       ∧ storage.computeQuorum (Go.len (proto.Replicas (storage.Desc repl)))
         ≤ storage.liveReplicaCount (storage.storePool (storage.allocator rq))
             (proto.Replicas (storage.Desc repl))).
Proof.
  destruct (storage.process log_V rq now repl sysCfg) as [t o] eqn:Hrun.
  simpl. run_queue.
  all: split.
  all: try (intros [msg Hmsg]; discriminate Hmsg).
  all: try (intros (zone & action & priority & Hzone & Haction & Hkind & Hattrs & Hquorum);
            simplify_eq; same_answers;
            first [ by destruct Hkind
                  | match goal with
                    | H : (_ <? _) = true |- _ => apply Z.ltb_lt in H; lia
                    end ]).
  all: try (intros _; eexists _, _, _; split_and!; try done; eauto;
            match goal with
            | H : (_ <? _) = false |- _ => by apply Z.ltb_ge in H
            end).
  all: by eexists.
Qed.

(** The zone of the witness has no replica attributes, and the allocator
    answers Noop for a range of one live replica. *)
Lemma process_panics_iff_witness :
  ∃ msg,
    (storage.process fixtures.quiet
       (fixtures.queueOf
          (fixtures.allocatorOf (storage.snapshotPool ∅) storage.AllocatorNoop 0 None false))
       fixtures.now0 (fixtures.rangeOn [1] 1)
       (fixtures.unsplit (Go.Ok (fixtures.zoneOf 0)))).2
    = Go.Panic msg.
Proof.
  apply (process_panics_iff fixtures.quiet
           (fixtures.queueOf
              (fixtures.allocatorOf (storage.snapshotPool ∅) storage.AllocatorNoop 0 None false))
           fixtures.now0 (fixtures.rangeOn [1] 1)
           (fixtures.unsplit (Go.Ok (fixtures.zoneOf 0)))).
  exists (fixtures.zoneOf 0), storage.AllocatorNoop, 0%float.
  split_and!; [reflexivity | reflexivity | by right | reflexivity | vm_compute; discriminate].
Defined.

(** X8: the RemoveDead action on a stale view. When the pool reports no dead
    replica of a range that has replicas, [process] hands over no membership
    change and returns nil, and yet it re-offers the range to the queue; the
    warning is logged iff logging at verbosity 1 is on. *)
Theorem process_removeDead_stale (log_V : Z → bool) (rq : storage.replicateQueue)
    (now : proto.Timestamp) (repl : storage.Replica) (sysCfg : config.SystemConfig)
    (zone : config.ZoneConfig) (priority : float) (repls : list proto.Replica) :
  storage.ComputeActionCall zone (storage.Desc repl) (storage.AllocatorRemoveDead, priority)
    ∈ (storage.process log_V rq now repl sysCfg).1 →
  storage.DeadReplicasCall repls [] ∈ (storage.process log_V rq now repl sysCfg).1 →
  repls ≠ [] →
  (storage.process log_V rq now repl sysCfg).2 = Go.Return None
  ∧ storage.requeuedLast rq repl (storage.process log_V rq now repl sysCfg).1
  ∧ Forall (λ e, storage.isChangeReplicas e = false)
      (storage.process log_V rq now repl sysCfg).1
  ∧ ((∃ format, storage.LogWarningf format repl
                  ∈ (storage.process log_V rq now repl sysCfg).1)
     ↔ log_V 1 = true).
Proof.
  intros Haction Hdead Hrepls.
  assert (Hlen : 1 ≤ Go.len repls)
    by (destruct repls; [done|]; unfold Go.len; simpl length; lia).
  destruct (storage.process log_V rq now repl sysCfg) as [t o] eqn:Hrun.
  simpl in *.
  run_queue; in_trace.
  all: try match goal with
           | H : (_ <? _) = true |- _ =>
               apply Z.ltb_lt in H; rewrite computeQuorum_len in H;
               try match goal with
                   | Hd : [] = storage.deadReplicas _ _ |- _ => rewrite <- Hd in H
                   end;
               change (Go.len (@nil proto.Replica)) with 0 in H;
               Z.to_euclidean_division_equations; lia
           end.
  all: split; [done|]; split; [requeued|]; split; [by repeat constructor|].
  all: split; [|intros Hlog; try congruence].
  all: try (intros [format Hwarn]; in_trace; done).
  eexists. repeat first [apply list_elem_of_here | apply list_elem_of_further].
Qed.

Lemma process_removeDead_stale_witness :
  storage.requeuedLast
    (fixtures.queueOf
       (fixtures.allocatorOf (storage.snapshotPool ∅) storage.AllocatorRemoveDead 1 None false))
    (fixtures.rangeOn [1; 2; 3] 1)
    (storage.process fixtures.quiet
       (fixtures.queueOf
          (fixtures.allocatorOf (storage.snapshotPool ∅) storage.AllocatorRemoveDead 1 None false))
       fixtures.now0 (fixtures.rangeOn [1; 2; 3] 1)
       (fixtures.unsplit (Go.Ok (fixtures.zoneOf 3)))).1.
Proof.
  destruct (process_removeDead_stale fixtures.quiet
              (fixtures.queueOf
                 (fixtures.allocatorOf (storage.snapshotPool ∅)
                    storage.AllocatorRemoveDead 1 None false))
              fixtures.now0 (fixtures.rangeOn [1; 2; 3] 1)
              (fixtures.unsplit (Go.Ok (fixtures.zoneOf 3)))
              (fixtures.zoneOf 3) 1%float (fixtures.replicaOn <$> [1; 2; 3]))
    as (_ & Hlast & _).
  - vm_compute. apply list_elem_of_here.
  - vm_compute. apply list_elem_of_further, list_elem_of_here.
  - discriminate.
  - exact Hlast.
Defined.

(** X9: [shouldQueue] only looks: it always returns, its trace has no
    membership change and no re-offer, it asks the allocator for nothing but
    the action and the rebalance verdict, and a range it does not queue has
    priority zero. *)
Theorem shouldQueue_read_only (rq : storage.replicateQueue) (now : proto.Timestamp)
    (repl : storage.Replica) (sysCfg : config.SystemConfig) :
  ∃ shouldQ priority,
    (storage.shouldQueue rq now repl sysCfg).2 = Go.Return (shouldQ, priority)
    ∧ Forall (λ e, match e with
                   | storage.ComputeActionCall _ _ _
                   | storage.ShouldRebalanceCall _ _
                   | storage.LogError _ => True
                   | _ => False
                   end)
        (storage.shouldQueue rq now repl sysCfg).1
    ∧ (shouldQ = false → priority = 0%float).
Proof.
  destruct (storage.shouldQueue rq now repl sysCfg) as [t o] eqn:Hrun.
  simpl. run_queue.
  all: eexists _, _; split; [reflexivity|]; split; [by repeat constructor|].
  all: try done.
Qed.

(** * Further properties of the simulated stores and nodes *)

(** X10: a store holds 16384 ranges. For a range count in the int32 range,
    the available bytes are the 2^26 bytes of a range times 16384 less the
    range count: none are left at exactly 16384 ranges, and beyond that the
    figure is negative. *)
Theorem getCapacity_full_at_16384 (rangeCount : Z) (s : simulation.Store) :
  - 2 ^ 31 ≤ rangeCount < 2 ^ 31 →
  proto.Available (simulation.getCapacity rangeCount s).1
  = simulation.bytesPerRange * (16384 - rangeCount)
  ∧ (proto.Available (simulation.getCapacity rangeCount s).1 = 0 ↔ rangeCount = 16384)
  ∧ (proto.Available (simulation.getCapacity rangeCount s).1 < 0 ↔ 16384 < rangeCount)
  ∧ (proto.Available (simulation.getCapacity rangeCount s).1
     ≤ proto.Capacity (simulation.getCapacity rangeCount s).1 ↔ 0 ≤ rangeCount).
Proof.
  intros Hrange. rewrite (getCapacity_exact rangeCount s Hrange). simpl.
  change simulation.bytesPerRange with (2 ^ 26). lia.
Qed.

Lemma getCapacity_full_at_16384_witness :
  proto.Available
    (simulation.getCapacity 16384
       (simulation.newStore 1001 {| proto.Node_NodeID := 1 |} fixtures.accepting)).1
  = 0.
Proof.
  apply (getCapacity_full_at_16384 16384
           (simulation.newStore 1001 {| proto.Node_NodeID := 1 |} fixtures.accepting)).
  - lia.
  - reflexivity.
Defined.

(** X11: for a range count in the int32 range, the status line of a store
    gives its ID, the ID of its node, the range count, 16384 less the range
    count as the available replicas, 2^40 as the capacity and the available
    bytes, and leaves the store as it was. *)
Theorem Store_String_figures (rangeCount : Z) (s : simulation.Store) :
  - 2 ^ 31 ≤ rangeCount < 2 ^ 31 →
  simulation.Store_String rangeCount s
  = ("Store " +:+ pretty (proto.Store_StoreID (simulation.desc s))
     +:+ " - Node:" +:+ pretty (proto.Node_NodeID (proto.Store_Node (simulation.desc s)))
     +:+ ", Replicas:" +:+ pretty rangeCount
     +:+ ", AvailableReplicas:" +:+ pretty (16384 - rangeCount)
     +:+ ", Capacity:" +:+ pretty 1099511627776
     +:+ ", Available:" +:+ pretty (1099511627776 - rangeCount * 67108864),
     s).
Proof.
  intros Hrange. unfold simulation.Store_String, simulation.getDesc.
  pose proof (getCapacity_exact rangeCount s Hrange) as Hcap.
  destruct (simulation.getCapacity rangeCount s) as [capacity s'] eqn:Hget.
  assert (s' = s) by (unfold simulation.getCapacity in Hget; by simplify_eq).
  simpl in Hcap. subst. simpl.
  change simulation.bytesPerRange with (2 ^ 26).
  replace ((2 ^ 40 - rangeCount * 2 ^ 26) `quot` 2 ^ 26) with (16384 - rangeCount).
  - unfold Go.int64. rewrite wrap_id by lia. reflexivity.
  - replace (2 ^ 40 - rangeCount * 2 ^ 26) with ((16384 - rangeCount) * 2 ^ 26) by lia.
    by rewrite Z.quot_mul.
Qed.

Lemma Store_String_figures_witness :
  (simulation.Store_String 3
     (simulation.newStore 1001 {| proto.Node_NodeID := 1 |} fixtures.accepting)).1
  = "Store 1001 - Node:1, Replicas:3, AvailableReplicas:16381, Capacity:1099511627776, Available:1099310301184"%string.
Proof.
  rewrite (Store_String_figures 3
             (simulation.newStore 1001 {| proto.Node_NodeID := 1 |} fixtures.accepting)).
  - vm_compute. reflexivity.
  - lia.
Defined.

(** What [addNewStore] does to the map of stores. *)
Lemma addNewStore_lookup_facts (n : simulation.Node) :
  simulation.stores (simulation.addNewStore n).2 !! (simulation.getNextStoreID n).1
  = Some (simulation.addNewStore n).1
  ∧ (∀ storeID, storeID ≠ (simulation.getNextStoreID n).1 →
       simulation.stores (simulation.addNewStore n).2 !! storeID
       = simulation.stores n !! storeID)
  ∧ (simulation.getIDs (simulation.addNewStore n).1).1
    = ((simulation.getNextStoreID n).1, proto.Node_NodeID (simulation.node_desc n))
  ∧ simulation.node_desc (simulation.addNewStore n).2 = simulation.node_desc n.
Proof.
  unfold simulation.addNewStore, simulation.getNextStoreID. simpl.
  split_and!; try done.
  - apply lookup_insert_eq.
  - intros storeID Hne. by apply lookup_insert_ne.
Qed.

Lemma addNewStore_size_free (n : simulation.Node) :
  simulation.stores n !! (simulation.getNextStoreID n).1 = None →
  size (simulation.stores (simulation.addNewStore n).2) = S (size (simulation.stores n)).
Proof.
  unfold simulation.addNewStore, simulation.getNextStoreID. simpl.
  intros Hfree. by apply map_size_insert_None.
Qed.

(** X12: [addNewStore] puts the store it returns under the next store ID of
    the node and touches no other entry; the store has that ID and the
    descriptor and gossip network of the node. The node has one store more
    when the ID was free, and as many as before when a store is replaced. *)
Theorem addNewStore_lookup (n : simulation.Node) :
  simulation.stores (simulation.addNewStore n).2 !! (simulation.getNextStoreID n).1
  = Some (simulation.addNewStore n).1
  ∧ (∀ storeID, storeID ≠ (simulation.getNextStoreID n).1 →
       simulation.stores (simulation.addNewStore n).2 !! storeID
       = simulation.stores n !! storeID)
  ∧ (simulation.getIDs (simulation.addNewStore n).1).1
    = ((simulation.getNextStoreID n).1, proto.Node_NodeID (simulation.node_desc n))
  ∧ simulation.gossip (simulation.addNewStore n).1 = simulation.node_gossip n
  ∧ simulation.node_desc (simulation.addNewStore n).2 = simulation.node_desc n
  ∧ (simulation.stores n !! (simulation.getNextStoreID n).1 = None →
     size (simulation.stores (simulation.addNewStore n).2) = S (size (simulation.stores n)))
  ∧ (is_Some (simulation.stores n !! (simulation.getNextStoreID n).1) →
     size (simulation.stores (simulation.addNewStore n).2) = size (simulation.stores n)).
Proof.
  unfold simulation.addNewStore, simulation.getNextStoreID. simpl.
  split_and!; try done.
  - apply lookup_insert_eq.
  - intros storeID Hne. by apply lookup_insert_ne.
  - intros Hfree. by apply map_size_insert_None.
  - intros Htaken. by apply map_size_insert_Some.
Qed.

Lemma addNewStore_lookup_witness :
  size (simulation.stores (simulation.addNewStore (simulation.newNode 1 fixtures.accepting)).2)
  = 1%nat.
Proof.
  destruct (addNewStore_lookup (simulation.newNode 1 fixtures.accepting))
    as (_ & _ & _ & _ & _ & Hfree & _).
  rewrite Hfree; reflexivity.
Defined.

Lemma getNextStoreID_exact (n : simulation.Node) :
  - 2 ^ 31 ≤ proto.Node_NodeID (simulation.node_desc n) * 1000
             + Z.of_nat (size (simulation.stores n)) < 2 ^ 31 →
  - 2 ^ 31 ≤ proto.Node_NodeID (simulation.node_desc n) < 2 ^ 31 →
  (simulation.getNextStoreID n).1
  = proto.Node_NodeID (simulation.node_desc n) * 1000
    + Z.of_nat (size (simulation.stores n)).
Proof.
  intros Hid Hnode. unfold simulation.getNextStoreID, Go.int64, Go.int32. simpl.
  rewrite (wrap_id 64 (proto.Node_NodeID _)) by lia.
  rewrite (wrap_id 64 (_ * 1000)) by lia.
  rewrite (wrap_id 64) by lia.
  rewrite (wrap_id 32) by lia. done.
Qed.

(** The stores of a new node after [k] calls of [addNewStore]. *)
Lemma addNewStores_ids_facts (nodeID : proto.NodeID) (g : gossip.Gossip) (k : nat) :
  - 2 ^ 31 ≤ nodeID * 1000 →
  nodeID * 1000 + Z.of_nat k ≤ 2 ^ 31 →
  size (simulation.stores (simulation.addNewStores k (simulation.newNode nodeID g))) = k
  ∧ simulation.node_desc (simulation.addNewStores k (simulation.newNode nodeID g))
    = {| proto.Node_NodeID := nodeID |}
  ∧ (∀ storeID,
       is_Some (simulation.stores
                  (simulation.addNewStores k (simulation.newNode nodeID g)) !! storeID)
       ↔ nodeID * 1000 ≤ storeID < nodeID * 1000 + Z.of_nat k)
  ∧ (∀ storeID s,
       simulation.stores (simulation.addNewStores k (simulation.newNode nodeID g)) !! storeID
       = Some s →
       (simulation.getIDs s).1 = (storeID, nodeID)).
Proof.
  intros Hlow. induction k as [|k IH]; intros Hhigh.
  - simpl. split_and!; try done.
    intros storeID. rewrite lookup_empty. split; [by intros [? ?] | lia].
  - destruct IH as (Hsize & Hdesc & Hdom & Hids); [lia|].
    set (n := simulation.addNewStores k (simulation.newNode nodeID g)) in *.
    assert (Hnext : (simulation.getNextStoreID n).1 = nodeID * 1000 + Z.of_nat k).
    { rewrite getNextStoreID_exact; rewrite ?Hdesc, ?Hsize; simpl; lia. }
    assert (Hfree : simulation.stores n !! (simulation.getNextStoreID n).1 = None).
    { apply eq_None_not_Some. rewrite Hdom, Hnext. lia. }
    destruct (addNewStore_lookup_facts n) as (Hnew & Hother & Hnewids & Hnode).
    change (simulation.addNewStores (S k) (simulation.newNode nodeID g))
      with (simulation.addNewStore n).2.
    split_and!.
    + rewrite (addNewStore_size_free n Hfree). by rewrite Hsize.
    + by rewrite Hnode.
    + intros storeID.
      destruct (decide (storeID = (simulation.getNextStoreID n).1)) as [->|Hne];
        unfold proto.StoreID, proto.NodeID in *.
      * rewrite Hnew, Hnext. split; [lia | by eexists].
      * rewrite Hother, Hdom by done. rewrite Hnext in Hne. lia.
    + intros storeID s.
      destruct (decide (storeID = (simulation.getNextStoreID n).1)) as [->|Hne];
        unfold proto.StoreID, proto.NodeID in *.
      * rewrite Hnew. intros [= <-]. etrans; [exact Hnewids|]. by rewrite Hdesc.
      * rewrite Hother by done. apply Hids.
Qed.

(** What [getStoreIDs] may return has exactly the IDs of the stores. *)
Lemma getStoreIDs_elem_of (n : simulation.Node) (storeIDs : list proto.StoreID)
    (storeID : proto.StoreID) :
  simulation.getStoreIDs_returns n storeIDs →
  storeID ∈ storeIDs ↔ is_Some (simulation.stores n !! storeID).
Proof.
  intros Hids. unfold simulation.getStoreIDs_returns in Hids.
  rewrite Hids, list_elem_of_fmap. split.
  - intros ([k s] & -> & Hin). apply elem_of_map_to_list in Hin. by eexists.
  - intros [s Hs]. exists (storeID, s). split; [done|]. by apply elem_of_map_to_list.
Qed.

Lemma getStoreIDs_NoDup (n : simulation.Node) (storeIDs : list proto.StoreID) :
  simulation.getStoreIDs_returns n storeIDs → NoDup storeIDs.
Proof.
  unfold simulation.getStoreIDs_returns. intros ->. apply NoDup_fst_map_to_list.
Qed.

(** X13: a new node to which [k] stores are added one after the other has
    [k] stores, and no store is replaced on the way: [getStoreIDs] returns,
    in some order, the IDs 1000 times the node ID plus 0 up to [k]-1, and
    each store reports its own ID and the ID of the node; this as long as
    these IDs are in the int32 range. *)
Theorem addNewStores_ids (nodeID : proto.NodeID) (g : gossip.Gossip) (k : nat) :
  - 2 ^ 31 ≤ nodeID * 1000 →
  nodeID * 1000 + Z.of_nat k ≤ 2 ^ 31 →
  size (simulation.stores (simulation.addNewStores k (simulation.newNode nodeID g))) = k
  ∧ (∀ storeIDs,
       simulation.getStoreIDs_returns
         (simulation.addNewStores k (simulation.newNode nodeID g)) storeIDs →
       storeIDs ≡ₚ seqZ (nodeID * 1000) (Z.of_nat k))
  ∧ (∀ storeID s,
       simulation.stores (simulation.addNewStores k (simulation.newNode nodeID g)) !! storeID
       = Some s →
       (simulation.getIDs s).1 = (storeID, nodeID)).
Proof.
  intros Hlow Hhigh.
  destruct (addNewStores_ids_facts nodeID g k Hlow Hhigh) as (Hsize & _ & Hdom & Hids).
  split_and!; [done | | done].
  intros storeIDs Hreturns. apply NoDup_Permutation.
  - by eapply getStoreIDs_NoDup.
  - apply NoDup_seqZ.
  - intros storeID. rewrite (getStoreIDs_elem_of _ _ _ Hreturns), Hdom, elem_of_seqZ. lia.
Qed.

(** Node 1 with two stores: the stores 1000 and 1001. *)
Lemma addNewStores_ids_witness :
  size (simulation.stores (simulation.addNewStores 2 (simulation.newNode 1 fixtures.accepting)))
  = 2%nat.
Proof.
  destruct (addNewStores_ids 1 fixtures.accepting 2) as (Hsize & _).
  - lia.
  - lia.
  - exact Hsize.
Defined.

(** X14: two nodes with different IDs between 0 and 2147482 that have fewer
    than 1000 stores each get different IDs for their next store. *)
Theorem getNextStoreID_distinct_nodes (n1 n2 : simulation.Node) :
  proto.Node_NodeID (simulation.node_desc n1) ≠ proto.Node_NodeID (simulation.node_desc n2) →
  0 ≤ proto.Node_NodeID (simulation.node_desc n1) ≤ 2147482 →
  0 ≤ proto.Node_NodeID (simulation.node_desc n2) ≤ 2147482 →
  (size (simulation.stores n1) < 1000)%nat →
  (size (simulation.stores n2) < 1000)%nat →
  (simulation.getNextStoreID n1).1 ≠ (simulation.getNextStoreID n2).1.
Proof.
  intros Hne Hid1 Hid2 Hsize1 Hsize2.
  rewrite !getNextStoreID_exact by lia. lia.
Qed.

Lemma getNextStoreID_distinct_nodes_witness :
  (simulation.getNextStoreID (simulation.newNode 1 fixtures.accepting)).1
  ≠ (simulation.getNextStoreID (simulation.newNode 2 fixtures.accepting)).1.
Proof.
  apply getNextStoreID_distinct_nodes; simpl.
  - lia.
  - lia.
  - lia.
  - rewrite map_size_empty. lia.
  - rewrite map_size_empty. lia.
Defined.

(** X15: the store IDs of neighbouring nodes run into each other: a node
    that has 1000 stores more than the node with the next node ID gets the
    same ID for its next store. *)
Theorem getNextStoreID_collides (n1 n2 : simulation.Node) :
  proto.Node_NodeID (simulation.node_desc n2)
  = proto.Node_NodeID (simulation.node_desc n1) + 1 →
  size (simulation.stores n1) = (size (simulation.stores n2) + 1000)%nat →
  - 2 ^ 31 ≤ proto.Node_NodeID (simulation.node_desc n1) →
  proto.Node_NodeID (simulation.node_desc n2) < 2 ^ 31 →
  (simulation.getNextStoreID n1).1 = (simulation.getNextStoreID n2).1.
Proof.
  intros Hid Hsize Hlow Hhigh.
  unfold simulation.getNextStoreID, Go.int64. simpl.
  rewrite Hid, Hsize.
  rewrite (wrap_id 64 (proto.Node_NodeID _)) by lia.
  rewrite (wrap_id 64 (proto.Node_NodeID _ + 1)) by lia.
  rewrite !(wrap_id 64 (_ * 1000)) by lia.
  f_equal. f_equal. lia.
Qed.

(** Node 1 with a thousand stores and a new node 2: both come to store 2000. *)
Lemma getNextStoreID_collides_witness :
  (simulation.getNextStoreID
     (simulation.addNewStores 1000 (simulation.newNode 1 fixtures.accepting))).1
  = (simulation.getNextStoreID (simulation.newNode 2 fixtures.accepting)).1.
Proof.
  destruct (addNewStores_ids_facts 1 fixtures.accepting 1000) as (Hsize & Hdesc & _);
    [lia | lia |].
  apply getNextStoreID_collides.
  - by rewrite Hdesc.
  - rewrite Hsize.
    change (simulation.stores (simulation.newNode 2 fixtures.accepting))
      with (∅ : gmap Z simulation.Store).
    rewrite map_size_empty. reflexivity.
  - rewrite Hdesc. simpl. lia.
  - simpl. lia.
Defined.

(** * Further properties of the node event feed *)

Section Dispatch.

Variable Batch : proto.Method.
Context {Trace L : Type} `{!status.NodeEventListener Trace L}.

(** X17: [ProcessNodeEvent] calls the method of the listener that matches
    the type of the event, and no other. Given the event that [StartNode]
    passes to Publish, it calls [OnStartNode] with the descriptor and the
    start time; given the event that [CallComplete] passes to Publish, it
    calls [OnCallError] when the response carries an error whose
    TransactionRestart is ABORT and [OnCallSuccess] otherwise, with the ID of
    the node and the method of the request (of the first inner request of a
    batch that has one); given a trace, it calls [OnTrace] with that trace;
    given a value of any other type, it leaves the listener as it is. *)
Theorem ProcessNodeEvent_delivers (nef : status.NodeEventFeed) (l : L) :
  (∀ desc startedAt feed event,
     status.PublishCall feed event ∈ (status.StartNode nef desc startedAt).1 →
     status.ProcessNodeEvent l (status.AnyNodeEvent event)
     = status.OnStartNode {| status.StartNode_Desc := desc;
                             status.StartNode_StartedAt := startedAt |} l)
  ∧ (∀ args reply feed event,
       status.PublishCall feed event ∈ (status.CallComplete Batch nef args reply).1 →
       ∃ method,
         (∀ first rest, args = proto.BatchRequest (first :: rest) →
                        method = proto.Request_Method Batch first)
         ∧ ((∀ first rest, args ≠ proto.BatchRequest (first :: rest)) →
            method = proto.Request_Method Batch args)
         ∧ ((∃ err, proto.Header_Error (proto.Header reply) = Some err
                    ∧ proto.Error_TransactionRestart err = proto.TransactionRestart_ABORT) →
            status.ProcessNodeEvent l (status.AnyNodeEvent event)
            = status.OnCallError {| status.CallError_NodeID := status.id nef;
                                    status.CallError_Method := method |} l)
         ∧ (¬ (∃ err, proto.Header_Error (proto.Header reply) = Some err
                      ∧ proto.Error_TransactionRestart err = proto.TransactionRestart_ABORT) →
            status.ProcessNodeEvent l (status.AnyNodeEvent event)
            = status.OnCallSuccess {| status.CallSuccess_NodeID := status.id nef;
                                      status.CallSuccess_Method := method |} l))
  ∧ (∀ trace : Trace,
       status.ProcessNodeEvent l (status.AnyTrace trace) = status.OnTrace trace l)
  ∧ status.ProcessNodeEvent l (status.AnyOther (Trace := Trace)) = l.
Proof.
  split_and!; [ | | done | done].
  - intros desc startedAt feed event Hpublished.
    apply list_elem_of_singleton in Hpublished. by simplify_eq.
  - intros args reply feed event Hpublished. unfold status.CallComplete in Hpublished.
    set (method := match args with
                   | proto.BatchRequest (first :: _) => proto.Request_Method Batch first
                   | _ => proto.Request_Method Batch args
                   end) in *.
    exists method. split_and!.
    + by intros first rest ->.
    + intros Hno. subst method. destruct args as [m | [| first rest]]; try done.
      by destruct (Hno first rest).
    + intros (err & Herr & Habort). rewrite Herr in Hpublished.
      rewrite decide_True in Hpublished by done.
      apply list_elem_of_singleton in Hpublished. by simplify_eq.
    + intros Hnot. destruct (proto.Header_Error (proto.Header reply)) as [err|].
      * rewrite decide_False in Hpublished by (intros Habort; apply Hnot; eauto).
        apply list_elem_of_singleton in Hpublished. by simplify_eq.
      * apply list_elem_of_singleton in Hpublished. by simplify_eq.
Qed.

End Dispatch.

(** A recording listener, given what a node publishes for a failed batch,
    hears of one failed call, of the first method of the batch. *)
Lemma ProcessNodeEvent_delivers_witness :
  status.ProcessNodeEvent (L := list (status.ListenerCall unit)) []
    (status.AnyNodeEvent
       (status.OfCallError {| status.CallError_NodeID := 1; status.CallError_Method := 4 |}))
  = [status.CalledOnCallError {| status.CallError_NodeID := 1; status.CallError_Method := 4 |}].
Proof.
  destruct (ProcessNodeEvent_delivers 99 (L := list (status.ListenerCall unit))
              (status.NewNodeEventFeed 1 (Some 1%positive)) []) as (_ & Hcall & _).
  destruct (Hcall (proto.BatchRequest [proto.OtherRequest 4; proto.OtherRequest 5])
              {| proto.Header :=
                   {| proto.Header_Error :=
                        Some {| proto.Error_Message := "aborted";
                                proto.Error_TransactionRestart :=
                                  proto.TransactionRestart_ABORT |} |} |}
              (Some 1%positive)
              (status.OfCallError {| status.CallError_NodeID := 1;
                                     status.CallError_Method := 4 |}))
    as (method & Hfirst & _ & Herror & _).
  - vm_compute. apply list_elem_of_here.
  - rewrite Herror.
    + by rewrite (Hfirst (proto.OtherRequest 4) [proto.OtherRequest 5] eq_refl).
    + eexists. split; reflexivity.
Defined.

(** * The enumerations of the transaction correctness test *)

(** A left fold depends on its function only at the elements of the list. *)
Lemma foldl_ext_in {A B} (f g : A → B → A) (l : list B) (a : A) :
  (∀ a x, x ∈ l → f a x = g a x) → foldl f a l = foldl g a l.
Proof.
  revert a. induction l as [|x l IH]; intros a Hfg; simpl; [done|].
  rewrite Hfg by left. apply IH. intros a' y Hy. apply Hfg. by right.
Qed.

Lemma enumeratePriorities_body_ext (e1 e2 : list Z → list (list Z)) (ps : list Z) :
  (∀ l, S (length l) = length ps → e1 l = e2 l) →
  kv.enumeratePriorities_body e1 ps = kv.enumeratePriorities_body e2 ps.
Proof.
  intros Hext. unfold kv.enumeratePriorities_body.
  apply foldl_ext_in. intros results i Hi.
  apply elem_of_seq in Hi.
  destruct (ps !! i) as [p|] eqn:Hp; [|done].
  rewrite Hext; [done|].
  rewrite <- delete_take_drop, length_delete by eauto. lia.
Qed.

Lemma enumeratePriorities_depth_enough (depth : nat) (ps : list Z) :
  (length ps < depth)%nat →
  kv.enumeratePriorities_depth depth ps = kv.enumeratePriorities ps.
Proof.
  unfold kv.enumeratePriorities. revert ps.
  induction depth as [|depth IH]; intros ps Hlen; [lia|].
  simpl. apply enumeratePriorities_body_ext. intros l Hl.
  rewrite IH by lia. destruct (length ps) as [|n] eqn:Hn; [lia|].
  assert (length l = n) as <- by lia. symmetry.
  change (kv.enumeratePriorities_depth (S (length l)) l) with (kv.enumeratePriorities l).
  unfold kv.enumeratePriorities. done.
Qed.

(** [enumeratePriorities] is the loop of the source over [enumeratePriorities]
    itself: the bound on the depth of the calls is never reached. *)
Lemma enumeratePriorities_eq (ps : list Z) :
  kv.enumeratePriorities ps = kv.enumeratePriorities_body kv.enumeratePriorities ps.
Proof.
  unfold kv.enumeratePriorities at 1. simpl.
  apply enumeratePriorities_body_ext. intros l Hl.
  apply enumeratePriorities_depth_enough. lia.
Qed.

Lemma enumeratePriorities_nil : kv.enumeratePriorities [] = [].
Proof. reflexivity. Qed.

Lemma enumeratePriorities_singleton (p : Z) : kv.enumeratePriorities [p] = [[p]].
Proof. reflexivity. Qed.

Lemma enumeratePriorities_step_nonempty (e : list Z → list (list Z)) (ps : list Z)
    (l : list nat) (results : list (list Z)) :
  results ≠ [] →
  foldl (λ results i,
           match ps !! i with
           | None => results
           | Some p =>
               let leftover := e (take i ps ++ drop (S i) ps) in
               let results :=
                 if decide (length leftover = 0%nat) then [[p]] else results in
               results ++ ((λ l, p :: l) <$> leftover)
           end) results l ≠ [].
Proof.
  revert results. induction l as [|i l IH]; intros results Hne; simpl; [done|].
  apply IH. destruct (ps !! i) as [p|]; [|done]. simpl.
  case_decide; [done|]. by destruct results.
Qed.

Lemma enumeratePriorities_nonempty (ps : list Z) :
  ps ≠ [] → kv.enumeratePriorities ps ≠ [].
Proof.
  destruct ps as [|p ps]; [done|]. intros _.
  rewrite enumeratePriorities_eq. unfold kv.enumeratePriorities_body.
  simpl length. rewrite <- cons_seq. simpl foldl.
  apply enumeratePriorities_step_nonempty.
  case_decide as Hempty; [done|].
  destruct (kv.enumeratePriorities _); [done|]. done.
Qed.

Lemma enumeratePriorities_fold_join (ps : list Z) (l : list nat) (results : list (list Z)) :
  (∀ i, i ∈ l → (i < length ps)%nat) →
  (2 ≤ length ps)%nat →
  foldl (λ results i,
           match ps !! i with
           | None => results
           | Some p =>
               let leftover := kv.enumeratePriorities (take i ps ++ drop (S i) ps) in
               let results :=
                 if decide (length leftover = 0%nat) then [[p]] else results in
               results ++ ((λ l, p :: l) <$> leftover)
           end) results l
  = results ++ mjoin (kv.enumeratePriorities_headed ps <$> l).
Proof.
  intros Hl Hlen. revert results.
  induction l as [|i l IH]; intros results; simpl.
  - by rewrite app_nil_r.
  - rewrite IH by (intros j Hj; apply Hl; by right).
    unfold kv.enumeratePriorities_headed at 2.
    destruct (ps !! i) as [p|] eqn:Hp; simpl; [|done].
    rewrite <- delete_take_drop.
    rewrite decide_False; [by rewrite <- app_assoc|].
    intros Hzero. apply nil_length_inv in Hzero.
    apply enumeratePriorities_nonempty in Hzero; [done|].
    intros Hnil. apply (f_equal length) in Hnil.
    rewrite length_delete in Hnil by eauto. simpl in Hnil. lia.
Qed.

Lemma enumeratePriorities_join (ps : list Z) :
  (2 ≤ length ps)%nat →
  kv.enumeratePriorities ps = mjoin (kv.enumeratePriorities_headed ps <$> seq 0 (length ps)).
Proof.
  intros Hlen. rewrite enumeratePriorities_eq at 1. unfold kv.enumeratePriorities_body.
  rewrite enumeratePriorities_fold_join; [done| |done].
  intros i Hi. apply elem_of_seq in Hi. lia.
Qed.

Lemma elem_of_enumeratePriorities_join (ps : list Z) (l : list Z) :
  l ∈ mjoin (kv.enumeratePriorities_headed ps <$> seq 0 (length ps))
  ↔ ∃ i p l', ps !! i = Some p ∧ l = p :: l' ∧ l' ∈ kv.enumeratePriorities (delete i ps).
Proof.
  rewrite list_elem_of_join. split.
  - intros (ls & Hl & Hls). apply list_elem_of_fmap in Hls as (i & -> & Hi).
    unfold kv.enumeratePriorities_headed in Hl. destruct (ps !! i) as [p|] eqn:Hp; [|by apply elem_of_nil in Hl].
    apply list_elem_of_fmap in Hl as (l' & -> & Hl'). eauto 10.
  - intros (i & p & l' & Hp & -> & Hl'). exists (kv.enumeratePriorities_headed ps i). split.
    + unfold kv.enumeratePriorities_headed. rewrite Hp. apply list_elem_of_fmap. eauto.
    + apply list_elem_of_fmap. exists i. split; [done|].
      apply elem_of_seq. apply lookup_lt_Some in Hp. lia.
Qed.

Lemma elem_of_enumeratePriorities (ps : list Z) :
  ps ≠ [] →
  ∀ l, l ∈ kv.enumeratePriorities ps ↔ l ≡ₚ ps.
Proof.
  remember (length ps) as n eqn:Hn. revert ps Hn.
  induction n as [n IH] using lt_wf_ind. intros ps Hn Hps l.
  destruct ps as [|p [|q ps]]; [done| |].
  - rewrite enumeratePriorities_singleton, list_elem_of_singleton.
    split; [by intros -> | by intros ->%Permutation_singleton_r].
  - rewrite enumeratePriorities_join by (simpl; lia).
    rewrite elem_of_enumeratePriorities_join.
    set (ps0 := p :: q :: ps) in *.
    assert (Hrest : ∀ i x, ps0 !! i = Some x → delete i ps0 ≠ []
                           ∧ (length (delete i ps0) < n)%nat).
    { intros i x Hi. assert (length (delete i ps0) = S (length ps)) as Hlen
        by (rewrite length_delete by eauto; done).
      split; [|subst n; simpl; lia].
      intros Hnil. by rewrite Hnil in Hlen. }
    split.
    + intros (i & x & l' & Hx & -> & Hl').
      destruct (Hrest i x Hx) as [Hne Hlt].
      apply (IH _ Hlt _ eq_refl Hne) in Hl'.
      rewrite Hl'. symmetry. by apply delete_Permutation.
    + intros Hperm.
      destruct l as [|x l'].
      { apply Permutation_nil_l in Hperm. done. }
      assert (x ∈ ps0) as Hin by (rewrite <- Hperm; left).
      apply list_elem_of_lookup in Hin as [i Hi].
      exists i, x, l'. split_and!; [done..|].
      destruct (Hrest i x Hi) as [Hne Hlt].
      apply (IH _ Hlt _ eq_refl Hne).
      apply (inj (x ::.)). rewrite Hperm. by apply delete_Permutation.
Qed.

Lemma sum_list_enumeratePriorities_headed (ps : list Z) (m : nat) (ids : list nat) :
  (∀ i, i ∈ ids → (i < length ps)%nat) →
  (∀ i, (i < length ps)%nat → length (kv.enumeratePriorities (delete i ps)) = m) →
  sum_list (length <$> (kv.enumeratePriorities_headed ps <$> ids)) = (length ids * m)%nat.
Proof.
  intros His Hm. induction ids as [|i ids IH]; [done|].
  rewrite !fmap_cons. simpl sum_list. simpl length.
  rewrite IH by (intros j Hj; apply His; by right).
  assert (i < length ps)%nat as Hi by (apply His; left).
  unfold kv.enumeratePriorities_headed. destruct (lookup_lt_is_Some_2 ps i Hi) as [p ->].
  rewrite length_fmap, Hm by done. lia.
Qed.

Lemma length_enumeratePriorities (ps : list Z) :
  ps ≠ [] → length (kv.enumeratePriorities ps) = fact (length ps).
Proof.
  remember (length ps) as n eqn:Hn. revert ps Hn.
  induction n as [n IH] using lt_wf_ind. intros ps Hn Hps.
  destruct ps as [|p [|q ps]]; [done| |].
  - by subst n.
  - rewrite enumeratePriorities_join by (simpl; lia).
    set (ps0 := p :: q :: ps) in *.
    rewrite length_join.
    rewrite (sum_list_enumeratePriorities_headed ps0 (fact (S (length ps)))).
    + rewrite length_seq. subst n. unfold ps0. simpl length.
      change (fact (S (S (length ps)))) with (S (S (length ps)) * fact (S (length ps)))%nat.
      done.
    + intros i Hi. apply elem_of_seq in Hi. lia.
    + intros i Hi.
      assert (length (delete i ps0) = S (length ps)) as Hlen.
      { destruct (lookup_lt_is_Some_2 ps0 i Hi) as [x Hx].
        rewrite length_delete by eauto. done. }
      rewrite <- Hlen. apply (IH (length (delete i ps0))); [subst n; simpl; lia|done|].
      intros Hnil. by rewrite Hnil in Hlen.
Qed.

(** The expectation of TestEnumeratePriorities. *)
Example TestEnumeratePriorities :
  kv.enumeratePriorities [1; 2; 3]
  = [[1; 2; 3]; [1; 3; 2]; [2; 1; 3]; [2; 3; 1]; [3; 1; 2]; [3; 2; 1]].
Proof. reflexivity. Qed.

(** X18: [enumeratePriorities] returns the orderings of its priorities: a
    slice is among the results iff it is a permutation of the priorities and
    the priorities are not empty; for no priorities there is no result at
    all. *)
Theorem enumeratePriorities_permutations (priorities l : list Z) :
  l ∈ kv.enumeratePriorities priorities ↔ l ≡ₚ priorities ∧ priorities ≠ [].
Proof.
  destruct (decide (priorities = [])) as [->|Hne].
  - rewrite enumeratePriorities_nil. split; [by intros ?%elem_of_nil | by intros [_ ?]].
  - rewrite (elem_of_enumeratePriorities priorities Hne). split; [done | by intros [? _]].
Qed.

(** X19: [enumeratePriorities] returns as many results as the factorial of
    the number of priorities, except that for no priorities it returns none. *)
Theorem enumeratePriorities_count (priorities : list Z) :
  length (kv.enumeratePriorities priorities)
  = match priorities with
    | [] => 0%nat
    | _ => fact (length priorities)
    end.
Proof.
  destruct priorities as [|p priorities]; [done|].
  by apply length_enumeratePriorities.
Qed.

Lemma NoDup_join_enumeratePriorities_headed (ps : list Z) (ids : list nat) :
  NoDup ps →
  NoDup ids →
  (∀ i, i ∈ ids → NoDup (kv.enumeratePriorities (delete i ps))) →
  NoDup (mjoin (kv.enumeratePriorities_headed ps <$> ids)).
Proof.
  intros Hps Hids Hrec. induction Hids as [|i ids Hi Hids IH]; [constructor|].
  rewrite fmap_cons. simpl mjoin. apply NoDup_app. split_and!.
  - unfold kv.enumeratePriorities_headed. destruct (ps !! i); [|constructor].
    apply (NoDup_fmap_2 _). apply Hrec. left.
  - intros l Hl Hl'. apply list_elem_of_join in Hl' as (ls & Hls & Hin).
    apply list_elem_of_fmap in Hin as (j & -> & Hj).
    unfold kv.enumeratePriorities_headed in Hl, Hls.
    destruct (ps !! i) as [p|] eqn:Hp; [|by apply elem_of_nil in Hl].
    destruct (ps !! j) as [q|] eqn:Hq; [|by apply elem_of_nil in Hls].
    apply list_elem_of_fmap in Hl as (l1 & -> & _).
    apply list_elem_of_fmap in Hls as (l2 & Heq & _).
    injection Heq as Hpq _. subst q.
    assert (i = j) by exact (NoDup_lookup ps i j p Hps Hp Hq). by subst.
  - apply IH. intros j Hj. apply Hrec. by right.
Qed.

(** X20: for priorities that are all different, [enumeratePriorities]
    returns no ordering twice. *)
Theorem enumeratePriorities_NoDup (ps : list Z) :
  NoDup ps → NoDup (kv.enumeratePriorities ps).
Proof.
  remember (length ps) as n eqn:Hn. revert ps Hn.
  induction n as [n IH] using lt_wf_ind. intros ps Hn Hps.
  destruct ps as [|p [|q ps]].
  - constructor.
  - rewrite enumeratePriorities_singleton. apply NoDup_singleton.
  - rewrite enumeratePriorities_join by (simpl; lia).
    set (ps0 := p :: q :: ps) in *.
    apply NoDup_join_enumeratePriorities_headed; [done|apply NoDup_seq|].
    intros i Hi. apply elem_of_seq in Hi.
    destruct (lookup_lt_is_Some_2 ps0 i) as [x Hx]; [lia|].
    apply (IH (length (delete i ps0))); [|done|].
    + rewrite length_delete by eauto. subst n. simpl. lia.
    + rewrite (delete_Permutation ps0 i x Hx) in Hps. by apply NoDup_cons in Hps as [_ ?].
Qed.

(** The priorities 1, 2, 3 of three transactions. *)
Lemma enumeratePriorities_NoDup_witness : NoDup (kv.enumeratePriorities [1; 2; 3]).
Proof.
  apply enumeratePriorities_NoDup.
  repeat (apply NoDup_cons; split;
          [intros Hin;
           repeat (apply elem_of_cons in Hin as [Hin|Hin]; [discriminate Hin|]);
           by apply elem_of_nil in Hin|]).
  apply NoDup_nil_2.
Defined.

(** X21: [areHistoriesSymmetric] is true exactly when all the histories are
    the same, which they are when there is none or one. *)
Theorem areHistoriesSymmetric_spec (txns : list string) :
  kv.areHistoriesSymmetric txns = true ↔ ∀ a b, a ∈ txns → b ∈ txns → a = b.
Proof.
  destruct txns as [|first rest]; simpl.
  - split; [|done]. intros _ a b Ha. by apply elem_of_nil in Ha.
  - rewrite forallb_forall. split.
    + intros Hall a b Ha Hb.
      assert (Heq : ∀ x, x ∈ first :: rest → x = first).
      { intros x [->|Hx]%elem_of_cons; [done|].
        apply list_elem_of_In, Hall in Hx. by apply bool_decide_eq_true in Hx. }
      by rewrite (Heq a Ha), (Heq b Hb).
    + intros Hall x Hx. apply bool_decide_eq_true.
      apply Hall; [right; by apply list_elem_of_In | left].
Qed.

Lemma areHistoriesSymmetric_spec_witness :
  kv.areHistoriesSymmetric ["R(A) I(A) C"; "R(A) I(A) C"] = true.
Proof.
  apply areHistoriesSymmetric_spec. intros a b Ha Hb.
  repeat match goal with
         | H : _ ∈ _ :: _ |- _ => apply elem_of_cons in H; destruct H as [H | H]
         | H : _ ∈ [] |- _ => by apply elem_of_nil in H
         end; by subst.
Defined.

Section HistoriesFacts.
Context {cmd : Type}.
Implicit Types (txns cp : list (list cmd)) (h : list cmd).

(** Taking the first command off a transaction. *)
Lemma advance_txn txns i (first : cmd) rest :
  txns !! i = Some (first :: rest) →
  mjoin txns ≡ₚ first :: mjoin (<[i := rest]> txns)
  ∧ length (mjoin txns) = S (length (mjoin (<[i := rest]> txns))).
Proof.
  intros Hi.
  pose proof (take_drop_middle txns i (first :: rest) Hi) as Hsplit.
  pose proof (insert_take_drop txns i rest (lookup_lt_Some _ _ _ Hi)) as Hcp.
  remember (take i txns) as before eqn:Hbefore.
  remember (drop (S i) txns) as after eqn:Hafter.
  clear Hbefore Hafter Hi. rewrite Hcp. subst txns.
  rewrite !join_app. simpl. split.
  - symmetry. apply Permutation_middle.
  - rewrite !length_app. simpl. rewrite !length_app. lia.
Qed.

Lemma enumerateHistories_body_ext
    (e1 e2 : list (list cmd) → option (list (list cmd))) txns symmetric :
  (∀ cp, S (length (mjoin cp)) = length (mjoin txns) → e1 cp = e2 cp) →
  kv.enumerateHistories_body e1 txns symmetric = kv.enumerateHistories_body e2 txns symmetric.
Proof.
  intros Hext. unfold kv.enumerateHistories_body.
  apply foldl_ext_in. intros acc i _.
  destruct acc as [results|]; [|done]. simpl.
  unfold kv.enumerateHistories_iteration.
  destruct (txns !! i) as [[|first rest]|] eqn:Hi; [done| |done]. simpl.
  rewrite Hext; [done|]. by destruct (advance_txn txns i first rest Hi) as [_ ->].
Qed.

Lemma enumerateHistories_depth_enough (depth : nat) txns symmetric :
  (length (mjoin txns) < depth)%nat →
  kv.enumerateHistories_depth depth txns symmetric = kv.enumerateHistories txns symmetric.
Proof.
  unfold kv.enumerateHistories. revert txns symmetric.
  induction depth as [|depth IH]; intros txns symmetric Hlen; [lia|].
  simpl. apply enumerateHistories_body_ext. intros cp Hcp.
  rewrite IH by lia. rewrite <- Hcp. done.
Qed.

(** [enumerateHistories] is the loop of the source over [enumerateHistories]
    itself: the bound on the depth of the calls is never reached. *)
Lemma enumerateHistories_eq txns symmetric :
  kv.enumerateHistories txns symmetric
  = kv.enumerateHistories_body (λ cp, kv.enumerateHistories cp false) txns symmetric.
Proof.
  unfold kv.enumerateHistories at 1. simpl.
  apply enumerateHistories_body_ext. intros cp Hcp.
  apply enumerateHistories_depth_enough. lia.
Qed.


Lemma interleaves_advance txns i (first : cmd) rest h :
  txns !! i = Some (first :: rest) →
  kv.interleaves (<[i := rest]> txns) h →
  kv.interleaves txns (first :: h).
Proof.
  intros Hi [Hperm Hsub]. split.
  - destruct (advance_txn txns i first rest Hi) as [-> _]. by rewrite Hperm.
  - intros k txn Hk. destruct (decide (k = i)) as [->|Hne].
    + rewrite Hi in Hk. injection Hk as <-. apply sublist_skip.
      apply (Hsub i). apply list_lookup_insert_eq. by eapply lookup_lt_Some.
    + apply sublist_cons. apply (Hsub k). by rewrite list_lookup_insert_ne.
Qed.

Lemma interleaves_empty cp : Forall (λ txn, txn = []) cp → kv.interleaves cp [].
Proof.
  intros Hall. split.
  - apply join_nil in Hall. by rewrite Hall.
  - intros i txn Hi. rewrite Forall_lookup in Hall. by rewrite (Hall i txn Hi).
Qed.

Lemma enumerateHistories_fold txns (ids : list nat) (results : list (list cmd)) :
  (∀ cp, S (length (mjoin cp)) = length (mjoin txns) →
         ∃ leftover, kv.enumerateHistories cp false = Some leftover
                     ∧ Forall (kv.interleaves cp) leftover
                     ∧ (leftover = [] → Forall (λ txn, txn = []) cp)) →
  (∀ i, i ∈ ids → (i < length txns)%nat) →
  Forall (kv.interleaves txns) results →
  ∃ results',
    foldl (λ acc i, results ← acc;
                    kv.enumerateHistories_iteration (λ cp, kv.enumerateHistories cp false)
                      txns results i)
      (Some results) ids = Some results'
    ∧ Forall (kv.interleaves txns) results'
    ∧ (results' = [] → results = [] ∧ ∀ i, i ∈ ids → txns !! i = Some []).
Proof.
  intros Hrec. revert results.
  induction ids as [|i ids IH]; intros results Hids Hgood; simpl.
  - exists results. split_and!; [done..|]. intros ->. split; [done|].
    intros i Hi. by apply elem_of_nil in Hi.
  - assert (i < length txns)%nat as Hi by (apply Hids; left).
    destruct (lookup_lt_is_Some_2 txns i Hi) as [txn Htxn].
    unfold kv.enumerateHistories_iteration at 2. rewrite Htxn. simpl.
    destruct txn as [|first rest].
    + destruct (IH results) as (results' & Hrun & Hgood' & Hempty);
        [intros j Hj; apply Hids; by right | done |].
      exists results'. split_and!; [done..|].
      intros Hnil. destruct (Hempty Hnil) as [-> Hall]. split; [done|].
      intros j [->|Hj]%elem_of_cons; [done | by apply Hall].
    + destruct (Hrec (<[i := rest]> txns)) as (leftover & -> & Hleft & Hnone).
      { by destruct (advance_txn txns i first rest Htxn) as [_ ->]. }
      simpl.
      set (results1 := (if decide (length leftover = 0%nat) then [[first]] else results)
                       ++ ((λ h, first :: h) <$> leftover)).
      assert (Hgood1 : Forall (kv.interleaves txns) results1).
      { unfold results1. apply Forall_app. split.
        - case_decide as Hlen; [|done].
          apply Forall_singleton. apply (interleaves_advance txns i first rest [] Htxn).
          apply interleaves_empty, Hnone. by apply nil_length_inv.
        - apply Forall_fmap. eapply Forall_impl; [exact Hleft|].
          intros h Hh. by apply (interleaves_advance txns i first rest h Htxn). }
      assert (Hne1 : results1 ≠ []).
      { unfold results1. case_decide as Hlen; [done|].
        destruct leftover; [done|]. by destruct results. }
      destruct (IH results1) as (results' & Hrun & Hgood' & Hempty);
        [intros j Hj; apply Hids; by right | done |].
      exists results'. split_and!; [done..|].
      intros Hnil. by destruct (Hempty Hnil) as [? _].
Qed.

Lemma enumerateHistories_run txns symmetric :
  (symmetric = true → txns ≠ []) →
  ∃ results,
    kv.enumerateHistories txns symmetric = Some results
    ∧ Forall (kv.interleaves txns) results
    ∧ (results = [] →
       ∀ i, (i < if symmetric then 1 else length txns)%nat → txns !! i = Some []).
Proof.
  remember (length (mjoin txns)) as n eqn:Hn. revert txns symmetric Hn.
  induction n as [n IH] using lt_wf_ind. intros txns symmetric Hn Hsym.
  rewrite enumerateHistories_eq. unfold kv.enumerateHistories_body.
  destruct (enumerateHistories_fold txns
              (seq 0 (if symmetric then 1%nat else length txns)) [])
    as (results & Hrun & Hgood & Hempty).
  - intros cp Hcp.
    destruct (IH (length (mjoin cp)) ltac:(lia) cp false eq_refl) as (lo & Hlo & Hgood & Hempty);
      [done|].
    exists lo. split_and!; [done..|].
    intros Hnil. apply Forall_lookup. intros i txn Hi.
    specialize (Hempty Hnil i (lookup_lt_Some _ _ _ Hi)). congruence.
  - intros i Hi%elem_of_seq. destruct symmetric; [|lia].
    destruct txns; [by destruct Hsym|]. simpl. lia.
  - constructor.
  - exists results. split_and!; [done..|].
    intros Hnil i Hi. apply Hempty; [done|]. apply elem_of_seq. lia.
Qed.

(** With empty transactions only, the loop leaves the results as they are. *)
Lemma enumerateHistories_fold_empty txns (ids : list nat) (results : list (list cmd)) :
  Forall (λ txn, txn = []) txns →
  (∀ i, i ∈ ids → (i < length txns)%nat) →
  foldl (λ acc i, results ← acc;
                  kv.enumerateHistories_iteration (λ cp, kv.enumerateHistories cp false)
                    txns results i)
    (Some results) ids = Some results.
Proof.
  intros Hall. induction ids as [|i ids IH]; intros Hids; simpl; [done|].
  destruct (lookup_lt_is_Some_2 txns i) as [txn Htxn]; [apply Hids; left|].
  unfold kv.enumerateHistories_iteration at 2. rewrite Htxn. simpl.
  rewrite Forall_lookup in Hall. rewrite (Hall i txn Htxn).
  apply IH. intros j Hj. apply Hids. by right.
Qed.

(** X22: every history [enumerateHistories] returns, symmetric or not, runs
    every command of the transactions once and keeps the commands of each
    transaction in their order. *)
Theorem enumerateHistories_interleavings txns symmetric (results : list (list cmd)) h :
  kv.enumerateHistories txns symmetric = Some results →
  h ∈ results →
  h ≡ₚ mjoin txns ∧ ∀ i txn, txns !! i = Some txn → txn `sublist_of` h.
Proof.
  intros Hrun Hh.
  destruct (enumerateHistories_run txns symmetric) as (results' & Hrun' & Hgood & _).
  - intros -> ->. by rewrite enumerateHistories_eq in Hrun.
  - rewrite Hrun in Hrun'. injection Hrun' as <-.
    rewrite Forall_forall in Hgood. by apply Hgood.
Qed.

(** X23: [enumerateHistories] panics exactly when it is asked for the
    symmetric histories of no transactions at all, where it indexes the
    first of them; otherwise it returns. *)
Theorem enumerateHistories_panics_iff txns symmetric :
  kv.enumerateHistories txns symmetric = None ↔ symmetric = true ∧ txns = [].
Proof.
  split.
  - intros Hnone. destruct symmetric.
    + split; [done|]. destruct txns as [|txn txns]; [done|].
      destruct (enumerateHistories_run (txn :: txns) true) as (results & Hrun & _); [done|].
      by rewrite Hrun in Hnone.
    + destruct (enumerateHistories_run txns false) as (results & Hrun & _); [done|].
      by rewrite Hrun in Hnone.
  - intros [-> ->]. by rewrite enumerateHistories_eq.
Qed.

(** X24: asked for all histories, [enumerateHistories] returns none exactly
    when no transaction has a command; it does not return the one empty
    history. *)
Theorem enumerateHistories_none_iff txns :
  kv.enumerateHistories txns false = Some [] ↔ Forall (λ txn, txn = []) txns.
Proof.
  split.
  - intros Hrun.
    destruct (enumerateHistories_run txns false) as (results & Hrun' & _ & Hempty); [done|].
    rewrite Hrun in Hrun'. injection Hrun' as <-.
    apply Forall_lookup. intros i txn Hi.
    specialize (Hempty eq_refl i (lookup_lt_Some _ _ _ Hi)). congruence.
  - intros Hall. rewrite enumerateHistories_eq. unfold kv.enumerateHistories_body.
    apply enumerateHistories_fold_empty; [done|].
    intros i Hi%elem_of_seq. lia.
Qed.

End HistoriesFacts.

(** The expectations of TestEnumerateHistories, for the commands I1(A), C1,
    I2(A), C2 numbered 1 to 4. *)
Example TestEnumerateHistories :
  kv.enumerateHistories [[1; 2]; [3; 4]]%nat false
  = Some [[1; 2; 3; 4]; [1; 3; 2; 4]; [1; 3; 4; 2];
          [3; 1; 2; 4]; [3; 1; 4; 2]; [3; 4; 1; 2]]%nat
  ∧ kv.enumerateHistories [[1; 2]; [3; 4]]%nat true
    = Some [[1; 2; 3; 4]; [1; 3; 2; 4]; [1; 3; 4; 2]]%nat.
Proof. split; reflexivity. Qed.

(** The histories of two transactions of two commands each. *)
Lemma enumerateHistories_interleavings_witness :
  [1; 3; 2; 4]%nat ≡ₚ mjoin [[1; 2]; [3; 4]]%nat
  ∧ ∀ i txn, [[1; 2]; [3; 4]]%nat !! i = Some txn → txn `sublist_of` [1; 3; 2; 4]%nat.
Proof.
  apply (enumerateHistories_interleavings [[1; 2]; [3; 4]]%nat false
           [[1; 2; 3; 4]; [1; 3; 2; 4]; [1; 3; 4; 2];
            [3; 1; 2; 4]; [3; 1; 4; 2]; [3; 4; 1; 2]]%nat).
  - vm_compute. reflexivity.
  - apply list_elem_of_further, list_elem_of_here.
Defined.

Lemma enumerateHistories_panics_iff_witness :
  kv.enumerateHistories (cmd := nat) [] true = None.
Proof. apply enumerateHistories_panics_iff. by split. Defined.

Lemma enumerateHistories_none_iff_witness :
  kv.enumerateHistories (cmd := nat) [[]; []] false = Some [].
Proof. apply enumerateHistories_none_iff. by repeat constructor. Defined.
